(** * whack-a-mouse: the gameplay core of [src/main.js]

    The module-level variables of [main.js] become the fields of one
    record [State]; every function that reads or writes them becomes a
    function on [State].  A call that can throw a [TypeError]
    ([holes[activeHoleIndex].position] on an index outside [holes])
    returns [option State], [None] being the exception.

    JavaScript numbers are modelled by exact rationals [Q]: timestamps,
    durations, coordinates and the results of [Math.random()].  Rounding of
    IEEE doubles is therefore not modelled, except in module [Double],
    which recomputes the grid in binary64 arithmetic.  The theorems on
    [rand], on the hole chosen by the pop and on the height of the mole
    state what rounding to nearest preserves: bounds that are not strict,
    and monotonicity.  The two counters [score] and [streak] are integers
    [Z].

    What comes from outside the program is an input of the operation that
    consumes it: the timestamp of a frame, the value of
    [performance.now()], the values returned by [Math.random()], the pose
    found by the hit test, the camera used by the fallback placement and
    whether the ray cast met the mole.

    The texts written to the page (HUD, status line, label of the pause
    button) are modelled apart, in module [Page].

    Not modelled: rendering, meshes and materials, and the cosmetic
    scale/flash tween started by [whackMole]. *)

From Stdlib Require Import QArith Qround Lqa ZArith Lia List Bool PrimFloat.
From Stdlib Require String DecimalString.
Import ListNotations.
Open Scope Q_scope.

(** ** three.js values used by the game *)

Module Three.

Record Vector3 := vec3 { vx : Q; vy : Q; vz : Q }.
Record Quaternion := quat { qx : Q; qy : Q; qz : Q; qw : Q }.

Definition zero3 : Vector3 := vec3 0 0 0.
Definition identityQ : Quaternion := quat 0 0 0 1.

(** [Vector3.add] *)
Definition add (v w : Vector3) : Vector3 :=
  vec3 (vx v + vx w) (vy v + vy w) (vz v + vz w).

(** [Vector3.addScaledVector] *)
Definition addScaledVector (v w : Vector3) (k : Q) : Vector3 :=
  vec3 (vx v + vx w * k) (vy v + vy w * k) (vz v + vz w * k).

(** [Vector3.applyQuaternion] of three.js r160: with [t = 2 * cross(q.xyz, v)]
    the result is [v + q.w * t + cross(q.xyz, t)]. *)
Definition applyQuaternion (v : Vector3) (q : Quaternion) : Vector3 :=
  let tx := 2 * (qy q * vz v - qz q * vy v) in
  let ty := 2 * (qz q * vx v - qx q * vz v) in
  let tz := 2 * (qx q * vy v - qy q * vx v) in
  vec3 (vx v + qw q * tx + qy q * tz - qz q * ty)
       (vy v + qw q * ty + qz q * tx - qx q * tz)
       (vz v + qw q * tz + qx q * ty - qy q * tx).

Definition set_y (y : Q) (v : Vector3) : Vector3 := vec3 (vx v) y (vz v).

(** Componentwise equality of rationals. *)
Definition veq (v w : Vector3) : Prop :=
  vx v == vx w /\ vy v == vy w /\ vz v == vz w.

End Three.

Import Three.

(** ** Constants *)

Definition GRID : nat := 3.
Definition SPACING : Q := 0.38.
Definition POP_INTERVAL_MIN : Q := 700.
Definition POP_INTERVAL_MAX : Q := 1400.
Definition UP_DURATION : Q := 900.

(** ** The state *)

(** [moleState], documented in the source as ['up' | 'down']. *)
Inductive MoleState := up | down.

Inductive AnimKind := pop | hide | bonk.

(** [mole.userData.anim] *)
Record Anim := mkAnim { kind : AnimKind; t0 : Q; dur : Q; from : Q; to : Q }.

Record State := mkState {
  hitTestSource : bool;              (* is a hit test source installed *)
  reticle_visible : bool;
  reticle_position : Vector3;
  reticle_quaternion : Quaternion;
  gridRoot_position : Vector3;
  gridRoot_quaternion : Quaternion;
  placed : bool;
  paused : bool;
  holes : list Vector3;              (* hole.position of each hole *)
  mole_visible : bool;
  mole_position : Vector3;
  mole_quaternion : Quaternion;
  mole_anim : option Anim;           (* None: undefined or null *)
  moleState : MoleState;
  activeHoleIndex : Z;
  nextPopAt : Q;
  score : Z;
  streak : Z;
  upSince : Q
}.

(** The values of the module-level declarations, after [init()]. *)
Definition initial : State :=
  {| hitTestSource := false;
     reticle_visible := false;
     reticle_position := zero3;
     reticle_quaternion := identityQ;
     gridRoot_position := zero3;
     gridRoot_quaternion := identityQ;
     placed := false;
     paused := false;
     holes := [];
     mole_visible := false;
     mole_position := zero3;
     mole_quaternion := identityQ;
     mole_anim := None;
     moleState := down;
     activeHoleIndex := (-1)%Z;
     nextPopAt := 0;
     score := 0%Z;
     streak := 0%Z;
     upSince := 0 |}.

(** Assignments to one variable. *)

Definition set_hitTestSource (b : bool) (s : State) : State :=
  mkState b (reticle_visible s) (reticle_position s) (reticle_quaternion s)
    (gridRoot_position s) (gridRoot_quaternion s) (placed s) (paused s)
    (holes s) (mole_visible s) (mole_position s) (mole_quaternion s)
    (mole_anim s) (moleState s) (activeHoleIndex s) (nextPopAt s) (score s)
    (streak s) (upSince s).

Definition set_reticle (b : bool) (p : Vector3) (q : Quaternion) (s : State)
  : State :=
  mkState (hitTestSource s) b p q
    (gridRoot_position s) (gridRoot_quaternion s) (placed s) (paused s)
    (holes s) (mole_visible s) (mole_position s) (mole_quaternion s)
    (mole_anim s) (moleState s) (activeHoleIndex s) (nextPopAt s) (score s)
    (streak s) (upSince s).

Definition set_reticle_visible (b : bool) (s : State) : State :=
  set_reticle b (reticle_position s) (reticle_quaternion s) s.

Definition set_gridRoot_position (p : Vector3) (s : State) : State :=
  mkState (hitTestSource s) (reticle_visible s) (reticle_position s)
    (reticle_quaternion s) p (gridRoot_quaternion s) (placed s) (paused s)
    (holes s) (mole_visible s) (mole_position s) (mole_quaternion s)
    (mole_anim s) (moleState s) (activeHoleIndex s) (nextPopAt s) (score s)
    (streak s) (upSince s).

Definition set_gridRoot_quaternion (q : Quaternion) (s : State) : State :=
  mkState (hitTestSource s) (reticle_visible s) (reticle_position s)
    (reticle_quaternion s) (gridRoot_position s) q (placed s) (paused s)
    (holes s) (mole_visible s) (mole_position s) (mole_quaternion s)
    (mole_anim s) (moleState s) (activeHoleIndex s) (nextPopAt s) (score s)
    (streak s) (upSince s).

Definition set_placed (b : bool) (s : State) : State :=
  mkState (hitTestSource s) (reticle_visible s) (reticle_position s)
    (reticle_quaternion s) (gridRoot_position s) (gridRoot_quaternion s)
    b (paused s)
    (holes s) (mole_visible s) (mole_position s) (mole_quaternion s)
    (mole_anim s) (moleState s) (activeHoleIndex s) (nextPopAt s) (score s)
    (streak s) (upSince s).

Definition set_paused (b : bool) (s : State) : State :=
  mkState (hitTestSource s) (reticle_visible s) (reticle_position s)
    (reticle_quaternion s) (gridRoot_position s) (gridRoot_quaternion s)
    (placed s) b
    (holes s) (mole_visible s) (mole_position s) (mole_quaternion s)
    (mole_anim s) (moleState s) (activeHoleIndex s) (nextPopAt s) (score s)
    (streak s) (upSince s).

Definition set_holes (l : list Vector3) (s : State) : State :=
  mkState (hitTestSource s) (reticle_visible s) (reticle_position s)
    (reticle_quaternion s) (gridRoot_position s) (gridRoot_quaternion s)
    (placed s) (paused s)
    l (mole_visible s) (mole_position s) (mole_quaternion s)
    (mole_anim s) (moleState s) (activeHoleIndex s) (nextPopAt s) (score s)
    (streak s) (upSince s).

Definition set_mole_visible (b : bool) (s : State) : State :=
  mkState (hitTestSource s) (reticle_visible s) (reticle_position s)
    (reticle_quaternion s) (gridRoot_position s) (gridRoot_quaternion s)
    (placed s) (paused s)
    (holes s) b (mole_position s) (mole_quaternion s)
    (mole_anim s) (moleState s) (activeHoleIndex s) (nextPopAt s) (score s)
    (streak s) (upSince s).

Definition set_mole_position (p : Vector3) (s : State) : State :=
  mkState (hitTestSource s) (reticle_visible s) (reticle_position s)
    (reticle_quaternion s) (gridRoot_position s) (gridRoot_quaternion s)
    (placed s) (paused s)
    (holes s) (mole_visible s) p (mole_quaternion s)
    (mole_anim s) (moleState s) (activeHoleIndex s) (nextPopAt s) (score s)
    (streak s) (upSince s).

Definition set_mole_quaternion (q : Quaternion) (s : State) : State :=
  mkState (hitTestSource s) (reticle_visible s) (reticle_position s)
    (reticle_quaternion s) (gridRoot_position s) (gridRoot_quaternion s)
    (placed s) (paused s)
    (holes s) (mole_visible s) (mole_position s) q
    (mole_anim s) (moleState s) (activeHoleIndex s) (nextPopAt s) (score s)
    (streak s) (upSince s).

Definition set_mole_anim (a : option Anim) (s : State) : State :=
  mkState (hitTestSource s) (reticle_visible s) (reticle_position s)
    (reticle_quaternion s) (gridRoot_position s) (gridRoot_quaternion s)
    (placed s) (paused s)
    (holes s) (mole_visible s) (mole_position s) (mole_quaternion s)
    a (moleState s) (activeHoleIndex s) (nextPopAt s) (score s)
    (streak s) (upSince s).

Definition set_moleState (m : MoleState) (s : State) : State :=
  mkState (hitTestSource s) (reticle_visible s) (reticle_position s)
    (reticle_quaternion s) (gridRoot_position s) (gridRoot_quaternion s)
    (placed s) (paused s)
    (holes s) (mole_visible s) (mole_position s) (mole_quaternion s)
    (mole_anim s) m (activeHoleIndex s) (nextPopAt s) (score s)
    (streak s) (upSince s).

Definition set_activeHoleIndex (i : Z) (s : State) : State :=
  mkState (hitTestSource s) (reticle_visible s) (reticle_position s)
    (reticle_quaternion s) (gridRoot_position s) (gridRoot_quaternion s)
    (placed s) (paused s)
    (holes s) (mole_visible s) (mole_position s) (mole_quaternion s)
    (mole_anim s) (moleState s) i (nextPopAt s) (score s)
    (streak s) (upSince s).

Definition set_nextPopAt (t : Q) (s : State) : State :=
  mkState (hitTestSource s) (reticle_visible s) (reticle_position s)
    (reticle_quaternion s) (gridRoot_position s) (gridRoot_quaternion s)
    (placed s) (paused s)
    (holes s) (mole_visible s) (mole_position s) (mole_quaternion s)
    (mole_anim s) (moleState s) (activeHoleIndex s) t (score s)
    (streak s) (upSince s).

Definition set_score (n : Z) (s : State) : State :=
  mkState (hitTestSource s) (reticle_visible s) (reticle_position s)
    (reticle_quaternion s) (gridRoot_position s) (gridRoot_quaternion s)
    (placed s) (paused s)
    (holes s) (mole_visible s) (mole_position s) (mole_quaternion s)
    (mole_anim s) (moleState s) (activeHoleIndex s) (nextPopAt s) n
    (streak s) (upSince s).

Definition set_streak (n : Z) (s : State) : State :=
  mkState (hitTestSource s) (reticle_visible s) (reticle_position s)
    (reticle_quaternion s) (gridRoot_position s) (gridRoot_quaternion s)
    (placed s) (paused s)
    (holes s) (mole_visible s) (mole_position s) (mole_quaternion s)
    (mole_anim s) (moleState s) (activeHoleIndex s) (nextPopAt s) (score s)
    n (upSince s).

Definition set_upSince (t : Q) (s : State) : State :=
  mkState (hitTestSource s) (reticle_visible s) (reticle_position s)
    (reticle_quaternion s) (gridRoot_position s) (gridRoot_quaternion s)
    (placed s) (paused s)
    (holes s) (mole_visible s) (mole_position s) (mole_quaternion s)
    (mole_anim s) (moleState s) (activeHoleIndex s) (nextPopAt s) (score s)
    (streak s) t.

(** ** Utilities *)

(** [easeOut(t) = 1 - Math.pow(1 - t, 3)] *)
Definition easeOut (t : Q) : Q := 1 - (1 - t) ^ 3.

(** [rand(a,b) = a + Math.random()*(b-a)], [u] being the value returned by
    [Math.random()]. *)
Definition rand (u a b : Q) : Q := a + u * (b - a).

(** [Math.min] on two numbers. *)
Definition Math_min (a b : Q) : Q := if Qle_bool a b then a else b.

(** [l[i]]: [None] is [undefined]. *)
Definition index {A : Type} (l : list A) (i : Z) : option A :=
  if (i <? 0)%Z then None else nth_error l (Z.to_nat i).

Definition is_up (m : MoleState) : bool :=
  match m with up => true | down => false end.

Definition is_down (m : MoleState) : bool := negb (is_up m).

(** ** Grid *)

(** [clearGrid] *)
Definition clearGrid (s : State) : State := set_holes [] s.

(** The position given to the hole of row [r] and column [c]. *)
Definition holePosition (p : Vector3) (q : Quaternion) (r c : nat) : Vector3 :=
  let offset := inject_Z (Z.of_nat GRID - 1) * SPACING * 0.5 in
  add (applyQuaternion
         (vec3 (inject_Z (Z.of_nat c) * SPACING - offset) 0
               (inject_Z (Z.of_nat r) * SPACING - offset)) q) p.

(** The two nested loops of [buildGrid], pushing row after row. *)
Definition gridPositions (p : Vector3) (q : Quaternion) : list Vector3 :=
  flat_map (fun r => map (fun c => holePosition p q r c) (seq 0 GRID))
           (seq 0 GRID).

(** [buildGrid] *)
Definition buildGrid (s : State) : State :=
  let s := clearGrid s in
  set_holes (holes s ++ gridPositions (gridRoot_position s)
                                      (gridRoot_quaternion s)) s.

(** ** Mole logic *)

(** [scheduleNextPop(now)], [u] being the random draw of [rand]. *)
Definition scheduleNextPop (u now : Q) (s : State) : State :=
  set_nextPopAt (now + rand u POP_INTERVAL_MIN POP_INTERVAL_MAX) s.

(** The condition of the first [if] of [updateMole]. *)
Definition popDue (nowMs : Q) (s : State) : bool :=
  is_down (moleState s) && Qle_bool (nextPopAt s) nowMs
  && negb (length (holes s) =? 0)%nat.

(** First block of [updateMole]: pop the mole at a random hole.  [u] is the
    value of [Math.random()]. *)
Definition popBlock (nowMs u : Q) (s : State) : option State :=
  if popDue nowMs s then
    let i := Qfloor (u * inject_Z (Z.of_nat (length (holes s)))) in
    match index (holes s) i with
    | None => None
    | Some hole =>
        let a := mkAnim pop nowMs 180 (-0.02) 0.16 in
        Some (set_upSince nowMs
             (set_moleState up
             (set_mole_position (set_y (vy hole + from a) hole)
             (set_mole_anim (Some a)
             (set_mole_visible true
             (set_mole_quaternion (gridRoot_quaternion s)
             (set_mole_position hole
             (set_activeHoleIndex i s))))))))
    end
  else Some s.

(** Second block of [updateMole]: play the current animation.  [u] is the
    random draw of [scheduleNextPop]. *)
Definition animBlock (nowMs u : Q) (s : State) : option State :=
  if mole_visible s then
    match mole_anim s with
    | Some a =>
        let t := Math_min 1 ((nowMs - t0 a) / dur a) in
        let y := from a + (to a - from a) * easeOut t in
        match index (holes s) (activeHoleIndex s) with
        | None => None
        | Some hole =>
            let s := set_mole_position
                       (set_y (vy hole + y) (mole_position s)) s in
            if Qle_bool 1 t then
              match kind a with
              | pop => Some (set_mole_anim None s)
              | hide | bonk =>
                  Some (scheduleNextPop u nowMs
                       (set_moleState down
                       (set_mole_anim None
                       (set_mole_visible false s))))
              end
            else Some s
        end
    | None => Some s
    end
  else Some s.

(** The condition of the last [if] of [updateMole]. *)
Definition hideDue (nowMs : Q) (s : State) : bool :=
  is_up (moleState s) && negb (Qle_bool (nowMs - upSince s) UP_DURATION)
  && match mole_anim s with None => true | Some _ => false end.

(** Third block of [updateMole]: hide the mole that was not whacked in
    time, and reset the streak. *)
Definition hideBlock (nowMs : Q) (s : State) : State :=
  if hideDue nowMs s then
    set_streak 0
      (set_mole_anim (Some (mkAnim hide nowMs 160 0.16 (-0.02))) s)
  else s.

(** [updateMole(nowMs, dt)]; [dt] is not used by the source.  [uPop] and
    [uNext] are the values of [Math.random()] at its two call sites. *)
Definition updateMole (nowMs uPop uNext : Q) (s : State) : option State :=
  match popBlock nowMs uPop s with
  | None => None
  | Some s1 =>
      match animBlock nowMs uNext s1 with
      | None => None
      | Some s2 => Some (hideBlock nowMs s2)
      end
  end.

(** [whackMole()]; [now] is the value of [performance.now()]. *)
Definition whackMole (now : Q) (s : State) : State :=
  if is_up (moleState s) then
    set_streak (streak s + 1)
      (set_score (score s + 1)
      (set_mole_anim (Some (mkAnim bonk now 140 0.16 (-0.02)))
      (set_moleState down s)))
  else s.

(** ** Frames and input *)

(** [updateReticle(frame)]; [pose] is the pose of the first hit test result,
    decomposed into position and quaternion, [None] when there is no frame,
    no result or no pose. *)
Definition updateReticle (pose : option (Vector3 * Quaternion)) (s : State)
  : State :=
  if hitTestSource s then
    match pose with
    | Some (p, q) => set_reticle true p q s
    | None => set_reticle_visible false s
    end
  else set_reticle_visible false s.

(** [onXRFrame(time, frame)] *)
Definition onXRFrame (time : Q) (pose : option (Vector3 * Quaternion))
    (uPop uNext : Q) (s : State) : option State :=
  let s := updateReticle pose s in
  if negb (paused s) && placed s then updateMole time uPop uNext s
  else Some s.

(** What [onPointerDown] reads from outside: the position of the XR camera
    and its normalised forward direction (fallback placement), and whether
    the ray cast through the pointer met the mole. *)
Record Pointer := mkPointer {
  cam_origin : Vector3;
  cam_forward : Vector3;
  hit : bool
}.

(** [onPointerDown(e)]; [now] is [performance.now()], [u] the random draw
    of [scheduleNextPop]. *)
Definition onPointerDown (e : Pointer) (now u : Q) (s : State) : State :=
  if negb (placed s) then
    let s :=
      if reticle_visible s then
        set_gridRoot_quaternion (reticle_quaternion s)
          (set_gridRoot_position (reticle_position s) s)
      else
        let p := addScaledVector (cam_origin e) (cam_forward e) 1.5 in
        set_gridRoot_position (set_y (vy p - 0.8) p) s in
    scheduleNextPop u now (set_placed true (buildGrid s))
  else if hit e && is_up (moleState s) then whackMole now s
  else s.

(** [resetGame()] *)
Definition resetGame (s : State) : State :=
  clearGrid
    (set_moleState down
    (set_mole_anim None
    (set_mole_visible false
    (set_paused false
    (set_placed false
    (set_streak 0
    (set_score 0 s))))))).

(** The click handler of the pause button. *)
Definition togglePause (s : State) : State := set_paused (negb (paused s)) s.

(** The [sessionstart] handler, once its reference spaces are resolved. *)
Definition sessionStart (now u : Q) (s : State) : State :=
  scheduleNextPop u now (set_hitTestSource true s).

(** The [sessionend] handler. *)
Definition sessionEnd (s : State) : State :=
  set_moleState down
    (set_mole_visible false
    (clearGrid
    (set_placed false
    (set_hitTestSource false s)))).

(** ** Runs *)

Inductive Event :=
| SessionStart (now u : Q)
| SessionEnd
| Frame (time : Q) (pose : option (Vector3 * Quaternion)) (uPop uNext : Q)
| PointerDown (e : Pointer) (now u : Q)
| Reset
| TogglePause.

Definition step (ev : Event) (s : State) : option State :=
  match ev with
  | SessionStart now u => Some (sessionStart now u s)
  | SessionEnd => Some (sessionEnd s)
  | Frame time pose uPop uNext => onXRFrame time pose uPop uNext s
  | PointerDown e now u => Some (onPointerDown e now u s)
  | Reset => Some (resetGame s)
  | TogglePause => Some (togglePause s)
  end.

Fixpoint run (evs : list Event) (s : State) : option State :=
  match evs with
  | [] => Some s
  | ev :: evs =>
      match step ev s with
      | None => None
      | Some s' => run evs s'
      end
  end.

(** [Math.random()] returns a number in [0, 1). *)
Definition random_ok (u : Q) : bool := Qle_bool 0 u && negb (Qle_bool 1 u).

Definition event_ok (ev : Event) : bool :=
  match ev with
  | SessionStart _ u => random_ok u
  | Frame _ _ uPop uNext => random_ok uPop && random_ok uNext
  | PointerDown _ _ u => random_ok u
  | _ => true
  end.

(** The states the program can be in. *)
Inductive reachable : State -> Prop :=
| reachable_initial : reachable initial
| reachable_step ev s s' :
    reachable s -> event_ok ev = true -> step ev s = Some s' -> reachable s'.

(** ** The target's state, in the specification's terms

    The source has the two values of [moleState], the visibility of the
    mole and its current animation; the specification's four states are
    read off them. *)

Inductive Phase := Down | Rising | Up | Retreating.

Definition phase (s : State) : Phase :=
  match moleState s with
  | up =>
      match mole_anim s with
      | None => Up
      | Some a => match kind a with pop => Rising | _ => Retreating end
      end
  | down =>
      if mole_visible s then
        match mole_anim s with
        | Some _ => Retreating
        | None => Down
        end
      else Down
  end.

(** ** Scenario used throughout: place, pop, rise *)

Definition tap (h : bool) : Pointer := mkPointer zero3 (vec3 0 0 (-1)) h.

(** Session start at 0, grid placed at time 0 (first pop due at 700), pop at
    700 on hole 0, fully up at 900. *)
Definition toUp : list Event :=
  [ SessionStart 0 0; PointerDown (tap false) 0 0;
    Frame 700 None 0 0; Frame 900 None 0 0 ].

(** ** Invariant of the reachable states *)

(** Animations are only ever created with the constants of their kind. *)
Definition anim_ok (a : Anim) : Prop :=
  match kind a with
  | pop => a = mkAnim pop (t0 a) 180 (-0.02) 0.16
  | hide => a = mkAnim hide (t0 a) 160 0.16 (-0.02)
  | bonk => a = mkAnim bonk (t0 a) 140 0.16 (-0.02)
  end.

Definition valid_index (s : State) : Prop :=
  (0 <= activeHoleIndex s < Z.of_nat (length (holes s)))%Z.

Record Inv (s : State) : Prop := mkInv {
  inv_up_visible : moleState s = up -> mole_visible s = true;
  inv_visible_placed : mole_visible s = true -> placed s = true;
  inv_placed_holes : placed s = true -> length (holes s) = 9%nat;
  inv_visible_index : mole_visible s = true -> valid_index s;
  inv_anim : forall a, mole_anim s = Some a -> anim_ok a;
  inv_up_y :
    moleState s = up -> mole_anim s = None ->
    forall hole, index (holes s) (activeHoleIndex s) = Some hole ->
    vy (mole_position s) == vy hole + 0.16;
  inv_pop_since :
    moleState s = up ->
    forall a, mole_anim s = Some a -> kind a = pop -> t0 a = upSince s
}.

(** The mole is up and has not started to retreat: the target is Rising or
    Up. *)
Definition waiting (s : State) : Prop :=
  moleState s = up
  /\ match mole_anim s with
     | None => True
     | Some a => kind a = pop
     end.

(** ** Pop cycles *)

(** Does this event run the first block of [updateMole] with its condition
    true, i.e. does it start a new pop cycle? *)
Definition popFires (ev : Event) (s : State) : bool :=
  match ev with
  | Frame time pose _ _ =>
      let s := updateReticle pose s in
      negb (paused s) && placed s && popDue time s
  | _ => false
  end.

Definition is_play (ev : Event) : bool :=
  match ev with
  | Frame _ _ _ _ | PointerDown _ _ _ => true
  | _ => false
  end.

(** The run consists of frames and taps and stays inside the current pop
    cycle: none of its frames pops the mole again. *)
Fixpoint same_cycle (evs : list Event) (s : State) : bool :=
  match evs with
  | [] => true
  | ev :: evs =>
      is_play ev && negb (popFires ev s)
      && match step ev s with
         | Some s' => same_cycle evs s'
         | None => false
         end
  end.

(** The state reached by [toUp]: the target is Up on hole 0 since 700. *)
Definition upState : State :=
  match run toUp initial with
  | Some s => s
  | None => initial
  end.

(** ** Timeouts *)

Definition is_frame (ev : Event) : bool :=
  match ev with
  | Frame _ _ _ _ => true
  | _ => false
  end.

(** Does this frame run the last block of [updateMole] with its condition
    true, i.e. does it reset the streak? *)
Definition missFires (ev : Event) (s : State) : bool :=
  match ev with
  | Frame time pose uPop uNext =>
      let s := updateReticle pose s in
      if negb (paused s) && placed s then
        match popBlock time uPop s with
        | Some s1 =>
            match animBlock time uNext s1 with
            | Some s2 => hideDue time s2
            | None => false
            end
        | None => false
        end
      else false
  | _ => false
  end.

(** Number of streak resets of a run, counted until the mole pops again. *)
Fixpoint cycleMisses (evs : list Event) (s : State) : nat :=
  match evs with
  | [] => 0
  | ev :: evs =>
      if popFires ev s then 0%nat
      else ((if missFires ev s then 1 else 0)
            + match step ev s with
              | Some s' => cycleMisses evs s'
              | None => 0
              end)%nat
  end.

(** Frames at 1000, 1601, 1617 and 1800. *)
Definition lateFrames : list Event :=
  [Frame 1000 None 0 0; Frame 1601 None 0 0; Frame 1617 None 0 0;
   Frame 1800 None 0 0].

(** The frame comes more than [UP_DURATION] after [since]. *)
Definition overdue (since : Q) (ev : Event) : bool :=
  match ev with
  | Frame time _ _ _ => negb (Qle_bool (time - since) UP_DURATION)
  | _ => false
  end.

(** ** Further scenarios *)

(** Placed at 0, popped at 700: the rise animation is running. *)
Definition risingState : State :=
  match run [SessionStart 0 0; PointerDown (tap false) 0 0;
             Frame 700 None 0 0] initial with
  | Some s => s
  | None => initial
  end.

(** Up since 700 and not whacked: the timeout fired at 1601 and the hide
    animation is running. *)
Definition hidingState : State :=
  match run (toUp ++ [Frame 1601 None 0 0]) initial with
  | Some s => s
  | None => initial
  end.

(** The hide animation ended at 1761: the mole is down again. *)
Definition downState : State :=
  match run (toUp ++ [Frame 1601 None 0 0; Frame 1761 None 0 0]) initial with
  | Some s => s
  | None => initial
  end.

(** ** The grid, in the specification's words *)

(** Local offset of the slot of row [r] and column [c]:
    [((c - (cols-1)/2) * spacing, (r - (rows-1)/2) * spacing)], in the
    plane of the grid. *)
Definition localOffset (rows cols : nat) (spacing : Q) (r c : nat) : Vector3 :=
  vec3 ((inject_Z (Z.of_nat c) - (inject_Z (Z.of_nat cols) - 1) / 2) * spacing)
       0
       ((inject_Z (Z.of_nat r) - (inject_Z (Z.of_nat rows) - 1) / 2) * spacing).

(** The set [{-0.38, 0, 0.38}²] of offsets in the plane, row after row. *)
Definition squareOffsets : list Vector3 :=
  flat_map (fun z => map (fun x => vec3 x 0 z) [-0.38; 0; 0.38])
           [-0.38; 0; 0.38].

(** Session start at 0, grid placed at 300 (first pop due at 1000), pop at
    1000. *)
Definition beforePop1000 : State :=
  match run [SessionStart 0 0; PointerDown (tap false) 300 0] initial with
  | Some s => s
  | None => initial
  end.

(** Up since 700, whacked at 950 (score and streak 1); the mole pops again
    at 966 and is fully up at 1200, not paused. *)
Definition toUpAfterHit : list Event :=
  toUp ++ [PointerDown (tap true) 950 0; Frame 966 None 0 0;
           Frame 1200 None 0 0].

Definition upAfterHitState : State :=
  match run toUpAfterHit initial with
  | Some s => s
  | None => initial
  end.

(** ** Pausing *)

(** What a player observes of the target and the counters. *)
Definition target_view (s : State) : Phase * Z * Z :=
  (phase s, score s, streak s).

(** The state without what [updateReticle] writes. *)
Definition forget_reticle (s : State) : State :=
  set_reticle false zero3 identityQ s.

(** Timers frozen by a pause, as the specification words it: the session
    is paused in state [s] at [tPause] and resumed at [tResume]; a frame [e]
    milliseconds after the resume finds the target as a frame [e]
    milliseconds after [tPause] finds it when there is no pause. *)
Definition pause_freezes_timers (s : State) (tPause tResume e : Q) : Prop :=
  option_map target_view
    (run [TogglePause; Frame tResume None 0 0; TogglePause;
          Frame (tResume + e) None 0 0] s)
  = option_map target_view (run [Frame (tPause + e) None 0 0] s).

(** ** Calling [updateMole] again with the same timestamp *)

(** Two states are the same when they agree on every variable, the
    coordinates of the mole being compared as rationals. *)
Definition same_state (s1 s2 : State) : Prop :=
  veq (mole_position s1) (mole_position s2)
  /\ set_mole_position zero3 s1 = set_mole_position zero3 s2.

(** The height the animation block gives the mole at [nowMs]. *)
Definition animHeight (nowMs : Q) (a : Anim) (hole : Vector3) : Q :=
  vy hole
  + (from a + (to a - from a)
              * easeOut (Math_min 1 ((nowMs - t0 a) / dur a))).

(** Nothing is left to do at [nowMs]: no pop is due, no timeout is due, and
    a running animation has not ended and has already put the mole at its
    height for [nowMs]. *)
Definition settled (nowMs : Q) (s : State) : Prop :=
  popDue nowMs s = false
  /\ hideDue nowMs s = false
  /\ (mole_visible s = true ->
      forall a, mole_anim s = Some a ->
      exists hole,
        index (holes s) (activeHoleIndex s) = Some hole
        /\ (nowMs - t0 a) / dur a < 1
        /\ animHeight nowMs a hole == vy (mole_position s)).

(** ** The grid in IEEE doubles

    The same computation as [gridPositions], on binary64 numbers with the
    rounding of each operation, to check Scenario A on the numbers the
    program really uses. *)
Module Double.

Import PrimFloat.
Local Open Scope float_scope.

Record Vector3 := vec3 { vx : float; vy : float; vz : float }.
Record Quaternion := quat { qx : float; qy : float; qz : float; qw : float }.

Definition add (v w : Vector3) : Vector3 :=
  vec3 (vx v + vx w) (vy v + vy w) (vz v + vz w).

Definition applyQuaternion (v : Vector3) (q : Quaternion) : Vector3 :=
  let tx := 2 * (qy q * vz v - qz q * vy v) in
  let ty := 2 * (qz q * vx v - qx q * vz v) in
  let tz := 2 * (qx q * vy v - qy q * vx v) in
  vec3 (vx v + qw q * tx + qy q * tz - qz q * ty)
       (vy v + qw q * ty + qz q * tx - qx q * tz)
       (vz v + qw q * tz + qx q * ty - qy q * tx).

Definition GRID : float := 3.
Definition SPACING : float := 0x1.851eb851eb852p-2. (* the double 0.38 *)

(** The loop counter [n], as a double. *)
Fixpoint counter (n : nat) : float :=
  match n with
  | O => 0
  | S n => counter n + 1
  end.

Definition holePosition (p : Vector3) (q : Quaternion) (r c : nat)
  : Vector3 :=
  let offset := (GRID - 1) * SPACING * 0.5 in
  add (applyQuaternion
         (vec3 (counter c * SPACING - offset) 0
               (counter r * SPACING - offset)) q) p.

Definition gridPositions (p : Vector3) (q : Quaternion) : list Vector3 :=
  flat_map (fun r => map (fun c => holePosition p q r c) (seq 0 3))
           (seq 0 3).

(** The set [{-0.38, 0, 0.38}²], [0.38] being the double nearest to it. *)
Definition squareOffsets : list Vector3 :=
  flat_map (fun z => map (fun x => vec3 x 0 z)
                         [- SPACING; 0; SPACING])
           [- SPACING; 0; SPACING].

End Double.

(** ** Further facts kept by every event *)

(** Counters, grid, visibility and position of the mole, as every handler
    leaves them. *)
Record Shape (s : State) : Prop := mkShape {
  shape_counters : (0 <= streak s <= score s)%Z;
  shape_unplaced : placed s = false -> holes s = [];
  shape_down_bonk :
    mole_visible s = true -> moleState s = down ->
    exists a, mole_anim s = Some a /\ kind a = bonk;
  shape_up_anim :
    moleState s = up -> forall a, mole_anim s = Some a -> kind a <> bonk;
  shape_on_hole :
    mole_visible s = true ->
    forall hole, index (holes s) (activeHoleIndex s) = Some hole ->
    vx (mole_position s) = vx hole /\ vz (mole_position s) = vz hole
    /\ mole_quaternion s = gridRoot_quaternion s
}.

(** ** The page: HUD, status line and pause button

    [updateHUD], the status line and the label of the pause button write
    the [textContent] of four elements of the page.  Each handler gets,
    beside its function on [State], the function that gives the texts it
    leaves; [None] is the text the element has when the page is loaded,
    which is not in the source.  Texts are byte strings. *)
Module Page.

Import String.
Local Open Scope string_scope.

Record Dom := mkDom {
  score_text : option string;     (* $score.textContent *)
  streak_text : option string;    (* $streak.textContent *)
  status_text : option string;    (* $status.textContent *)
  btnPause_text : option string   (* $btnPause.textContent *)
}.

Definition loaded : Dom := mkDom None None None None.

Definition set_status (t : string) (d : Dom) : Dom :=
  mkDom (score_text d) (streak_text d) (Some t) (btnPause_text d).

Definition set_btnPause (t : string) (d : Dom) : Dom :=
  mkDom (score_text d) (streak_text d) (status_text d) (Some t).

(** The texts of the source. *)
Definition FIND_FLOOR : string := "find a floor, then tap to place the grid.".
Definition TAP_TO_PLACE : string := "tap to place the grid.".
Definition MOVE_PHONE : string := "move phone to help it find the floor…".
Definition WHACK : string := "whack the mole when it pops!".
Definition PAUSE : string := "pause".
Definition RESUME : string := "resume".

(** [String(n)] for an integer [n]: its decimal numeral. *)
Definition String_ (n : Z) : string :=
  DecimalString.NilZero.string_of_int (Z.to_int n).

(** [updateHUD()] *)
Definition updateHUD (s : State) (d : Dom) : Dom :=
  mkDom (Some (String_ (score s))) (Some (String_ (streak s)))
        (status_text d) (btnPause_text d).

(** What a frame brings to [updateReticle]: no frame, no hit test result,
    a result without pose, or a pose. *)
Inductive HitTest :=
| NoFrame
| NoResult
| NoPose
| Pose (p : Vector3) (q : Quaternion).

Definition pose_of (h : HitTest) : option (Vector3 * Quaternion) :=
  match h with
  | Pose p q => Some (p, q)
  | _ => None
  end.

(** The texts left by [updateReticle(frame)], called in state [s]. *)
Definition updateReticle_dom (h : HitTest) (s : State) (d : Dom) : Dom :=
  if hitTestSource s then
    match h with
    | NoFrame => d
    | NoResult => if negb (placed s) then set_status MOVE_PHONE d else d
    | NoPose => d
    | Pose _ _ => if negb (placed s) then set_status TAP_TO_PLACE d else d
    end
  else d.

(** The texts left by [updateMole(nowMs, dt)]: [updateHUD()] is called
    where the streak is reset. *)
Definition updateMole_dom (nowMs uPop uNext : Q) (s : State) (d : Dom) : Dom :=
  match popBlock nowMs uPop s with
  | Some s1 =>
      match animBlock nowMs uNext s1 with
      | Some s2 =>
          if hideDue nowMs s2 then updateHUD (hideBlock nowMs s2) d else d
      | None => d
      end
  | None => d
  end.

(** The texts left by [onXRFrame(time, frame)]. *)
Definition onXRFrame_dom (time : Q) (h : HitTest) (uPop uNext : Q)
    (s : State) (d : Dom) : Dom :=
  let d := updateReticle_dom h s d in
  let s := updateReticle (pose_of h) s in
  if negb (paused s) && placed s then updateMole_dom time uPop uNext s d
  else d.

(** The texts left by [whackMole()]. *)
Definition whackMole_dom (now : Q) (s : State) (d : Dom) : Dom :=
  if is_up (moleState s) then updateHUD (whackMole now s) d else d.

(** The texts left by [onPointerDown(e)]. *)
Definition onPointerDown_dom (e : Pointer) (now u : Q) (s : State) (d : Dom)
  : Dom :=
  if negb (placed s) then set_status WHACK d
  else if hit e && is_up (moleState s) then whackMole_dom now s d
  else d.

(** The texts left by [resetGame()]. *)
Definition resetGame_dom (s : State) (d : Dom) : Dom :=
  updateHUD (resetGame s) (set_status FIND_FLOOR (set_btnPause PAUSE d)).

(** The texts left by the click handler of the pause button. *)
Definition togglePause_dom (s : State) (d : Dom) : Dom :=
  set_btnPause (if paused (togglePause s) then RESUME else PAUSE) d.

(** The texts left by the [sessionend] handler. *)
Definition sessionEnd_dom (d : Dom) : Dom := set_status FIND_FLOOR d.

(** Events of the page: those of [Event], a frame telling what the hit
    test gave. *)
Inductive PageEvent :=
| PSessionStart (now u : Q)
| PSessionEnd
| PFrame (time : Q) (h : HitTest) (uPop uNext : Q)
| PPointerDown (e : Pointer) (now u : Q)
| PReset
| PTogglePause.

Definition event_of (ev : PageEvent) : Event :=
  match ev with
  | PSessionStart now u => SessionStart now u
  | PSessionEnd => SessionEnd
  | PFrame time h uPop uNext => Frame time (pose_of h) uPop uNext
  | PPointerDown e now u => PointerDown e now u
  | PReset => Reset
  | PTogglePause => TogglePause
  end.

Definition dom_step (ev : PageEvent) (s : State) (d : Dom) : Dom :=
  match ev with
  | PSessionStart _ _ => d
  | PSessionEnd => sessionEnd_dom d
  | PFrame time h uPop uNext => onXRFrame_dom time h uPop uNext s d
  | PPointerDown e now u => onPointerDown_dom e now u s d
  | PReset => resetGame_dom s d
  | PTogglePause => togglePause_dom s d
  end.

Definition pageStep (ev : PageEvent) (p : State * Dom) : option (State * Dom) :=
  match step (event_of ev) (fst p) with
  | Some s' => Some (s', dom_step ev (fst p) (snd p))
  | None => None
  end.

Fixpoint pageRun (evs : list PageEvent) (p : State * Dom)
  : option (State * Dom) :=
  match evs with
  | [] => Some p
  | ev :: evs =>
      match pageStep ev p with
      | Some p' => pageRun evs p'
      | None => None
      end
  end.

Inductive page_reachable : State * Dom -> Prop :=
| page_loaded : page_reachable (initial, loaded)
| page_step ev p p' :
    page_reachable p -> event_ok (event_of ev) = true ->
    pageStep ev p = Some p' -> page_reachable p'.

(** The HUD shows the counters, or has not been written and the counters
    are still 0. *)
Definition hud_ok (s : State) (d : Dom) : Prop :=
  (score_text d = Some (String_ (score s))
   /\ streak_text d = Some (String_ (streak s)))
  \/ (score_text d = None /\ streak_text d = None
      /\ score s = 0%Z /\ streak s = 0%Z).

(** The pause button names what a click would do, or has not been written
    and the session is not paused. *)
Definition btnPause_ok (s : State) (d : Dom) : Prop :=
  btnPause_text d = Some (if paused s then RESUME else PAUSE)
  \/ (btnPause_text d = None /\ paused s = false).

(** The status line invites to whack exactly while the grid is placed. *)
Definition status_ok (s : State) (d : Dom) : Prop :=
  (placed s = true -> status_text d = Some WHACK)
  /\ (placed s = false ->
      status_text d = None \/ status_text d = Some FIND_FLOOR
      \/ status_text d = Some TAP_TO_PLACE
      \/ status_text d = Some MOVE_PHONE).

(** A session: start, a frame that finds the floor, the placing tap, pop,
    rise and a hit. *)
Definition session : list PageEvent :=
  [ PSessionStart 0 0; PFrame 16 (Pose zero3 identityQ) 0 0;
    PPointerDown (tap false) 0 0; PFrame 700 NoResult 0 0;
    PFrame 900 NoResult 0 0; PPointerDown (tap true) 950 0 ].

(** The page reached by [session]. *)
Definition sessionPage : State * Dom :=
  match pageRun session (initial, loaded) with
  | Some p => p
  | None => (initial, loaded)
  end.

End Page.

(** ** The rise *)

(** The frame comes less than 180 ms after [t]: the pop animation started
    at [t] has not ended. *)
Definition risingAt (t : Q) (ev : Event) : bool :=
  match ev with
  | Frame time _ _ _ => negb (Qle_bool 180 (time - t))
  | _ => false
  end.

(** * Properties *)

(** ** Arithmetic and list helpers *)

Lemma Qle_bool_false (x y : Q) : Qle_bool x y = false <-> y < x.
Proof.
  split; intro H.
  - apply Qnot_le_lt. intro Hle. apply Qle_bool_iff in Hle. congruence.
  - destruct (Qle_bool x y) eqn:E; [|reflexivity].
    apply Qle_bool_iff in E. lra.
Qed.

Lemma random_ok_spec (u : Q) : random_ok u = true <-> 0 <= u /\ u < 1.
Proof.
  unfold random_ok. rewrite andb_true_iff, negb_true_iff.
  rewrite Qle_bool_iff, Qle_bool_false. reflexivity.
Qed.

Lemma Some_eq {A : Type} (x y : A) : Some x = Some y -> x = y.
Proof. intro H. inversion H. reflexivity. Qed.

Lemma index_Some {A : Type} (l : list A) (i : Z) :
  (0 <= i < Z.of_nat (length l))%Z -> exists x, index l i = Some x.
Proof.
  intros [H0 H1]. unfold index.
  destruct (i <? 0)%Z eqn:E; [apply Z.ltb_lt in E; lia|].
  destruct (nth_error l (Z.to_nat i)) eqn:N; [eauto|].
  apply nth_error_None in N. lia.
Qed.

Lemma index_bounds {A : Type} (l : list A) (i : Z) (x : A) :
  index l i = Some x -> (0 <= i < Z.of_nat (length l))%Z.
Proof.
  unfold index. destruct (i <? 0)%Z eqn:E; [discriminate|].
  apply Z.ltb_ge in E. intro N.
  assert (Hn : nth_error l (Z.to_nat i) <> None) by congruence.
  apply nth_error_Some in Hn. lia.
Qed.

Lemma floor_index_bounds (u : Q) (n : nat) :
  random_ok u = true -> (0 < n)%nat ->
  (0 <= Qfloor (u * inject_Z (Z.of_nat n)) < Z.of_nat n)%Z.
Proof.
  intros Hu Hn. apply random_ok_spec in Hu. destruct Hu as [Hu0 Hu1].
  assert (HN : 0 < inject_Z (Z.of_nat n)).
  { change 0 with (inject_Z 0). rewrite <- Zlt_Qlt. lia. }
  split.
  - change 0%Z with (Qfloor (inject_Z 0)) at 1.
    apply Qfloor_resp_le. change (inject_Z 0) with 0.
    apply Qmult_le_0_compat; lra.
  - rewrite Zlt_Qlt.
    apply Qle_lt_trans with (u * inject_Z (Z.of_nat n)).
    + apply Qfloor_le.
    + assert (H := Qmult_lt_compat_r u 1 _ HN Hu1). lra.
Qed.

Lemma rand_interval (u : Q) :
  random_ok u = true ->
  POP_INTERVAL_MIN <= rand u POP_INTERVAL_MIN POP_INTERVAL_MAX
  /\ rand u POP_INTERVAL_MIN POP_INTERVAL_MAX <= POP_INTERVAL_MAX.
Proof.
  intro Hu. apply random_ok_spec in Hu.
  unfold rand, POP_INTERVAL_MIN, POP_INTERVAL_MAX. lra.
Qed.

Lemma one_le_div (x d : Q) : 0 < d -> (1 <= x / d <-> d <= x).
Proof.
  intros Hd. split; intro H.
  - assert (E : x == (x / d) * d) by (field; lra).
    rewrite E. setoid_replace d with (1 * d) at 1 by ring.
    apply Qmult_le_compat_r; lra.
  - apply Qle_shift_div_l; lra.
Qed.

Lemma Math_min_one_ge (x : Q) : Qle_bool 1 (Math_min 1 x) = Qle_bool 1 x.
Proof.
  unfold Math_min. destruct (Qle_bool 1 x) eqn:E; [reflexivity|exact E].
Qed.

Lemma easeOut_0 : easeOut 0 == 0.
Proof. reflexivity. Qed.

Lemma easeOut_1 : easeOut 1 == 1.
Proof. reflexivity. Qed.

Lemma Math_min_one (x : Q) :
  (1 <= x /\ Math_min 1 x = 1) \/ (x < 1 /\ Math_min 1 x = x).
Proof.
  unfold Math_min. destruct (Qle_bool 1 x) eqn:E.
  - left. apply Qle_bool_iff in E. auto.
  - right. apply Qle_bool_false in E. auto.
Qed.

(** ** The invariant holds in every reachable state *)

Lemma Inv_initial : Inv initial.
Proof.
  constructor; cbn; discriminate.
Qed.

Lemma gridPositions_length (p : Vector3) (q : Quaternion) :
  length (gridPositions p q) = 9%nat.
Proof. reflexivity. Qed.

Lemma popDue_spec (nowMs : Q) (s : State) :
  popDue nowMs s = true <->
  moleState s = down /\ nextPopAt s <= nowMs /\ holes s <> [].
Proof.
  unfold popDue, is_down, is_up.
  rewrite !andb_true_iff, Qle_bool_iff, !negb_true_iff, Nat.eqb_neq.
  destruct (moleState s), (holes s); cbn; intuition congruence.
Qed.

(** Closes a field of [Inv] for a state obtained by assignments from a state
    whose invariant has been split into the context. *)
Ltac inv_field :=
  cbn; intros; try discriminate; try assumption; try reflexivity;
  try (match goal with
       | H : Some _ = Some _ |- anim_ok _ => inversion H; subst; reflexivity
       | H : Some _ = Some ?a, K : kind ?a = pop |- _ =>
           inversion H; subst; (reflexivity || discriminate K)
       end);
  eauto.

Lemma popBlock_Inv (nowMs u : Q) (s : State) :
  Inv s -> placed s = true -> random_ok u = true ->
  exists s', popBlock nowMs u s = Some s' /\ Inv s' /\ placed s' = true.
Proof.
  intros I Hp Hu. unfold popBlock.
  destruct (popDue nowMs s) eqn:D; [|eauto].
  apply popDue_spec in D. destruct D as (_ & _ & Hh).
  assert (Hlen : (0 < length (holes s))%nat).
  { destruct (holes s); [congruence | cbn; lia]. }
  pose proof (floor_index_bounds u _ Hu Hlen) as Hb.
  destruct (index_Some (holes s) _ Hb) as [hole Hhole].
  rewrite Hhole. eexists. split; [reflexivity|]. split; [|exact Hp].
  destruct I as [I1 I2 I3 I4 I5 I6 I7].
  constructor; inv_field.
Qed.

Lemma animBlock_Inv (nowMs u : Q) (s : State) :
  Inv s ->
  exists s', animBlock nowMs u s = Some s' /\ Inv s'
             /\ placed s' = placed s.
Proof.
  intros I. unfold animBlock.
  destruct (mole_visible s) eqn:V; [|eauto].
  destruct (mole_anim s) as [a|] eqn:A; [|eauto].
  destruct (index_Some (holes s) _ (inv_visible_index s I V)) as [hole Hhole].
  rewrite Hhole.
  pose proof (inv_anim s I a A) as Ha.
  destruct I as [I1 I2 I3 I4 I5 I6 I7].
  destruct (Math_min_one ((nowMs - t0 a) / dur a)) as [[Ht Hm]|[Ht Hm]];
    rewrite Hm.
  - replace (Qle_bool 1 1) with true by reflexivity.
    unfold anim_ok in Ha.
    destruct (kind a) eqn:K; (eexists; split; [reflexivity|]);
      (split; [|reflexivity]); constructor; inv_field.
    assert (hole0 = hole) by congruence. subst hole0.
    rewrite Ha; cbn. unfold easeOut. ring.
  - replace (Qle_bool 1 ((nowMs - t0 a) / dur a)) with false
      by (symmetry; apply Qle_bool_false; exact Ht).
    eexists; split; [reflexivity|]. split; [|reflexivity].
    constructor; inv_field. congruence.
Qed.

Lemma hideBlock_Inv (nowMs : Q) (s : State) :
  Inv s -> Inv (hideBlock nowMs s) /\ placed (hideBlock nowMs s) = placed s.
Proof.
  intros I. unfold hideBlock. destruct (hideDue nowMs s); [|auto].
  split; [|reflexivity].
  destruct I as [I1 I2 I3 I4 I5 I6 I7].
  constructor; inv_field.
Qed.

Lemma updateMole_Inv (nowMs uPop uNext : Q) (s : State) :
  Inv s -> placed s = true -> random_ok uPop = true ->
  exists s', updateMole nowMs uPop uNext s = Some s' /\ Inv s'.
Proof.
  intros I Hp Hu. unfold updateMole.
  destruct (popBlock_Inv nowMs uPop s I Hp Hu) as (s1 & E1 & I1 & _).
  rewrite E1.
  destruct (animBlock_Inv nowMs uNext s1 I1) as (s2 & E2 & I2 & _).
  rewrite E2. eexists; split; [reflexivity|].
  apply hideBlock_Inv; assumption.
Qed.

Lemma updateReticle_Inv (pose : option (Vector3 * Quaternion)) (s : State) :
  Inv s -> Inv (updateReticle pose s).
Proof.
  intros [I1 I2 I3 I4 I5 I6 I7]. unfold updateReticle.
  destruct (hitTestSource s); [destruct pose as [[p q]|]|];
    constructor; inv_field.
Qed.

Lemma onXRFrame_Inv (time : Q) pose (uPop uNext : Q) (s : State) :
  Inv s -> random_ok uPop = true ->
  exists s', onXRFrame time pose uPop uNext s = Some s' /\ Inv s'.
Proof.
  intros I Hu. unfold onXRFrame.
  pose proof (updateReticle_Inv pose s I) as I'.
  destruct (negb (paused (updateReticle pose s))
            && placed (updateReticle pose s)) eqn:E; [|eauto].
  apply andb_true_iff in E. destruct E as [_ Hp].
  apply updateMole_Inv; assumption.
Qed.

Lemma whackMole_Inv (now : Q) (s : State) : Inv s -> Inv (whackMole now s).
Proof.
  intros [I1 I2 I3 I4 I5 I6 I7]. unfold whackMole.
  destruct (is_up (moleState s)); constructor; inv_field.
Qed.

Lemma onPointerDown_Inv (e : Pointer) (now u : Q) (s : State) :
  Inv s -> Inv (onPointerDown e now u s).
Proof.
  intros I. unfold onPointerDown.
  destruct (placed s) eqn:P; cbn.
  - destruct (hit e && is_up (moleState s));
      [apply whackMole_Inv|]; assumption.
  - destruct I as [I1 I2 I3 I4 I5 I6 I7].
    assert (V : mole_visible s = false).
    { destruct (mole_visible s); [rewrite I2 in P; congruence | reflexivity]. }
    assert (M : moleState s = down).
    { destruct (moleState s); [rewrite I1 in V; congruence | reflexivity]. }
    destruct (reticle_visible s); constructor; inv_field; congruence.
Qed.

Lemma resetGame_Inv (s : State) : Inv s -> Inv (resetGame s).
Proof. intros [I1 I2 I3 I4 I5 I6 I7]. constructor; inv_field. Qed.

Lemma sessionEnd_Inv (s : State) : Inv s -> Inv (sessionEnd s).
Proof. intros [I1 I2 I3 I4 I5 I6 I7]. constructor; inv_field. Qed.

Lemma sessionStart_Inv (now u : Q) (s : State) :
  Inv s -> Inv (sessionStart now u s).
Proof. intros [I1 I2 I3 I4 I5 I6 I7]. constructor; inv_field. Qed.

Lemma togglePause_Inv (s : State) : Inv s -> Inv (togglePause s).
Proof. intros [I1 I2 I3 I4 I5 I6 I7]. constructor; inv_field. Qed.

Lemma step_Inv (ev : Event) (s : State) :
  Inv s -> event_ok ev = true -> exists s', step ev s = Some s' /\ Inv s'.
Proof.
  intros I Hev. destruct ev; cbn in *.
  - eauto using sessionStart_Inv.
  - eauto using sessionEnd_Inv.
  - apply andb_true_iff in Hev. destruct Hev as [Hu _].
    apply onXRFrame_Inv; assumption.
  - eauto using onPointerDown_Inv.
  - eauto using resetGame_Inv.
  - eauto using togglePause_Inv.
Qed.

Lemma reachable_Inv (s : State) : reachable s -> Inv s.
Proof.
  induction 1 as [|ev s s' _ IH Hev Hstep].
  - apply Inv_initial.
  - destruct (step_Inv ev s IH Hev) as (s'' & E & I). congruence.
Qed.

(** No event throws in a reachable state. *)
Lemma reachable_step_total (ev : Event) (s : State) :
  reachable s -> event_ok ev = true ->
  exists s', step ev s = Some s' /\ reachable s'.
Proof.
  intros R Hev.
  destruct (step_Inv ev s (reachable_Inv s R) Hev) as (s' & E & _).
  exists s'. split; [assumption|]. eapply reachable_step; eassumption.
Qed.

Lemma reachable_run (evs : list Event) (s s' : State) :
  reachable s -> forallb event_ok evs = true -> run evs s = Some s' ->
  reachable s'.
Proof.
  revert s. induction evs as [|ev evs IH]; cbn; intros s R Hok Hrun.
  - congruence.
  - apply andb_true_iff in Hok. destruct Hok as [Hev Hevs].
    destruct (step ev s) as [s1|] eqn:E; [|discriminate].
    apply (IH s1); [eapply reachable_step; eassumption | assumption..].
Qed.

(** ** What each block of [updateMole] leaves alone *)

Lemma popBlock_frame (nowMs u : Q) (s s' : State) :
  popBlock nowMs u s = Some s' ->
  score s' = score s /\ streak s' = streak s /\ holes s' = holes s
  /\ placed s' = placed s /\ paused s' = paused s
  /\ nextPopAt s' = nextPopAt s.
Proof.
  unfold popBlock. destruct (popDue nowMs s).
  - destruct (index (holes s) _); [|discriminate].
    intro H; inversion H; subst; cbn; auto 10.
  - intro H; inversion H; subst; auto 10.
Qed.

Lemma popBlock_not_due (nowMs u : Q) (s : State) :
  popDue nowMs s = false -> popBlock nowMs u s = Some s.
Proof. unfold popBlock. intros ->. reflexivity. Qed.

Lemma animBlock_frame (nowMs u : Q) (s s' : State) :
  animBlock nowMs u s = Some s' ->
  score s' = score s /\ streak s' = streak s /\ holes s' = holes s
  /\ placed s' = placed s /\ paused s' = paused s
  /\ activeHoleIndex s' = activeHoleIndex s /\ upSince s' = upSince s
  /\ (moleState s = down -> moleState s' = down).
Proof.
  unfold animBlock. destruct (mole_visible s).
  - destruct (mole_anim s) as [a|].
    + destruct (index (holes s) (activeHoleIndex s)); [|discriminate].
      destruct (Qle_bool 1 _); [destruct (kind a)|];
        intro H; inversion H; subst; cbn; auto 10.
    + intro H; inversion H; subst; auto 10.
  - intro H; inversion H; subst; auto 10.
Qed.

Lemma hideBlock_frame (nowMs : Q) (s : State) :
  score (hideBlock nowMs s) = score s
  /\ holes (hideBlock nowMs s) = holes s
  /\ moleState (hideBlock nowMs s) = moleState s
  /\ mole_visible (hideBlock nowMs s) = mole_visible s
  /\ nextPopAt (hideBlock nowMs s) = nextPopAt s.
Proof. unfold hideBlock. destruct (hideDue nowMs s); cbn; auto. Qed.

Lemma hideBlock_down (nowMs : Q) (s : State) :
  moleState s = down -> hideBlock nowMs s = s.
Proof. unfold hideBlock, hideDue. intros ->. reflexivity. Qed.

(** Frames never change the score. *)
Lemma updateMole_score (nowMs uPop uNext : Q) (s s' : State) :
  updateMole nowMs uPop uNext s = Some s' -> score s' = score s.
Proof.
  unfold updateMole.
  destruct (popBlock nowMs uPop s) as [s1|] eqn:E1; [|discriminate].
  destruct (animBlock nowMs uNext s1) as [s2|] eqn:E2; [|discriminate].
  intro H; inversion H; subst.
  apply popBlock_frame in E1. apply animBlock_frame in E2.
  pose proof (hideBlock_frame nowMs s2). intuition congruence.
Qed.

Lemma updateReticle_frame pose (s : State) :
  score (updateReticle pose s) = score s
  /\ streak (updateReticle pose s) = streak s
  /\ moleState (updateReticle pose s) = moleState s
  /\ mole_visible (updateReticle pose s) = mole_visible s
  /\ mole_anim (updateReticle pose s) = mole_anim s
  /\ placed (updateReticle pose s) = placed s
  /\ paused (updateReticle pose s) = paused s.
Proof.
  unfold updateReticle.
  destruct (hitTestSource s); [destruct pose as [[p q]|]|]; cbn; auto 10.
Qed.

Lemma onXRFrame_score (time : Q) pose (uPop uNext : Q) (s s' : State) :
  onXRFrame time pose uPop uNext s = Some s' -> score s' = score s.
Proof.
  unfold onXRFrame. destruct (_ && _).
  - intro H. apply updateMole_score in H. rewrite H.
    apply updateReticle_frame.
  - intro H; inversion H; subst. apply updateReticle_frame.
Qed.

(** ** One hit per pop cycle *)

(** While [moleState] is ['down'] and the mole does not pop, neither frames
    nor taps change the counters, and [moleState] stays ['down']. *)
Lemma down_step_quiet (ev : Event) (s s' : State) :
  moleState s = down -> is_play ev = true -> popFires ev s = false ->
  step ev s = Some s' ->
  score s' = score s /\ streak s' = streak s /\ moleState s' = down.
Proof.
  intros M Hplay Hpop Hstep. destruct ev; try discriminate; cbn in *.
  - unfold onXRFrame in Hstep.
    pose proof (updateReticle_frame pose s) as (Rs & Rk & Rm & _).
    destruct (negb (paused (updateReticle pose s))
              && placed (updateReticle pose s)) eqn:G; cbn in Hpop.
    + unfold updateMole in Hstep.
      rewrite (popBlock_not_due _ _ _ Hpop) in Hstep.
      destruct (animBlock time uNext (updateReticle pose s)) as [s2|] eqn:E2;
        [|discriminate].
      inversion Hstep; subst. apply animBlock_frame in E2.
      destruct E2 as (A1 & A2 & _ & _ & _ & _ & _ & A3).
      rewrite hideBlock_down by (apply A3; congruence).
      repeat split; [congruence | congruence | apply A3; congruence].
    + inversion Hstep; subst. repeat split; congruence.
  - inversion Hstep; subst. unfold onPointerDown.
    destruct (placed s); cbn.
    + rewrite M. rewrite andb_false_r. auto.
    + destruct (reticle_visible s); cbn; auto.
Qed.

Lemma same_cycle_quiet (evs : list Event) (s : State) :
  moleState s = down -> same_cycle evs s = true ->
  exists s', run evs s = Some s'
             /\ score s' = score s /\ streak s' = streak s
             /\ moleState s' = down.
Proof.
  revert s. induction evs as [|ev evs IH]; cbn; intros s M H.
  - eauto.
  - apply andb_true_iff in H. destruct H as [H Hrest].
    apply andb_true_iff in H. destruct H as [Hplay Hpop].
    apply negb_true_iff in Hpop.
    destruct (step ev s) as [s1|] eqn:E; [|discriminate].
    destruct (down_step_quiet ev s s1 M Hplay Hpop E) as (A & B & C).
    destruct (IH s1 C Hrest) as (s' & R & A' & B' & C').
    exists s'. repeat split; congruence.
Qed.

Lemma phase_Up_iff (s : State) :
  phase s = Up <-> moleState s = up /\ mole_anim s = None.
Proof.
  unfold phase. destruct (moleState s), (mole_anim s) as [a|];
    try destruct (kind a); destruct (mole_visible s);
    intuition congruence.
Qed.

(** In every reachable state whose target is Up, a tap that meets the
    target adds exactly 1 to [score] and to [streak] and moves the target
    out of Up at once (it is Retreating, [moleState] being ['down']); after
    that hit a second tap changes neither counter, and no run of taps and
    frames changes them as long as the mole does not pop again. *)
Lemma hit_in_Up_scores_once (s : State) (e : Pointer) (now u : Q) :
  reachable s -> phase s = Up -> hit e = true ->
  let s1 := onPointerDown e now u s in
  score s1 = (score s + 1)%Z
  /\ streak s1 = (streak s + 1)%Z
  /\ phase s1 = Retreating
  /\ (forall e2 now2 u2,
        score (onPointerDown e2 now2 u2 s1) = score s1
        /\ streak (onPointerDown e2 now2 u2 s1) = streak s1)
  /\ (forall evs, same_cycle evs s1 = true ->
        exists s2, run evs s1 = Some s2
                   /\ score s2 = score s1 /\ streak s2 = streak s1).
Proof.
  intros R P Hhit s1.
  apply phase_Up_iff in P. destruct P as [M A].
  pose proof (reachable_Inv s R) as I.
  pose proof (inv_up_visible s I M) as V.
  pose proof (inv_visible_placed s I V) as Pl.
  assert (E1 : s1 = whackMole now s).
  { unfold s1, onPointerDown. rewrite Pl, Hhit, M. reflexivity. }
  assert (W : whackMole now s =
              set_streak (streak s + 1)
                (set_score (score s + 1)
                (set_mole_anim (Some (mkAnim bonk now 140 0.16 (-0.02)))
                (set_moleState down s)))).
  { unfold whackMole. rewrite M. reflexivity. }
  assert (M1 : moleState s1 = down) by (rewrite E1, W; reflexivity).
  split; [rewrite E1, W; reflexivity|].
  split; [rewrite E1, W; reflexivity|].
  split; [rewrite E1, W; unfold phase; cbn; rewrite V; reflexivity|].
  split.
  - intros e2 now2 u2.
    destruct (down_step_quiet (PointerDown e2 now2 u2) s1 _ M1
                eq_refl eq_refl eq_refl) as (H1 & H2 & _).
    auto.
  - intros evs Hc.
    destruct (same_cycle_quiet evs s1 M1 Hc) as (s2 & Hr & H1 & H2 & _).
    eauto.
Qed.

Lemma reachable_of_run (evs : list Event) (s : State) :
  forallb event_ok evs = true -> run evs initial = Some s -> reachable s.
Proof. apply reachable_run. apply reachable_initial. Qed.

Lemma upState_reachable : reachable upState.
Proof. apply (reachable_of_run toUp); vm_compute; reflexivity. Qed.

Lemma upState_Up : phase upState = Up.
Proof. vm_compute. reflexivity. Qed.

(** C1 holds for the hit itself ([hit_in_Up_scores_once]) but fails on
    "at most one hit per pop cycle", by the defect shown for C7.  The mole is
    Up since 700.  The tap at 950 scores and the target retreats; the frame
    at 966 pops the mole again, because [whackMole] has put [moleState] to
    ['down'] and left [nextPopAt] at 700; the target is Rising without
    having been Down, and the tap at 970 scores again: two hits with no
    Down, Rising, Up traversal between them. *)
Theorem C1_two_hits_in_one_cycle :
  exists s1 s2 s3,
    reachable upState /\ phase upState = Up
    /\ step (PointerDown (tap true) 950 0) upState = Some s1
    /\ step (Frame 966 None 0 0) s1 = Some s2
    /\ step (PointerDown (tap true) 970 0) s2 = Some s3
    /\ score s1 = (score upState + 1)%Z
    /\ streak s1 = (streak upState + 1)%Z
    /\ phase s1 = Retreating
    /\ phase s2 = Rising
    /\ score s3 = (score upState + 2)%Z
    /\ streak s3 = (streak upState + 2)%Z.
Proof.
  destruct (step (PointerDown (tap true) 950 0) upState) as [s1|] eqn:E1;
    [|discriminate E1].
  destruct (step (Frame 966 None 0 0) s1) as [s2|] eqn:E2;
    vm_compute in E1; apply Some_eq in E1; subst s1;
    [|vm_compute in E2; discriminate E2].
  destruct (step (PointerDown (tap true) 970 0) s2) as [s3|] eqn:E3;
    vm_compute in E2; apply Some_eq in E2; subst s2;
    [|discriminate E3].
  vm_compute in E3. apply Some_eq in E3. subst s3.
  eexists. eexists. eexists.
  split; [exact upState_reachable|]. split; [exact upState_Up|].
  split; [reflexivity|]. split; [vm_compute; reflexivity|].
  split; [vm_compute; reflexivity|].
  vm_compute. repeat split; reflexivity.
Qed.
(** ** One streak reset per cycle *)

Lemma updateReticle_shape pose (s : State) :
  exists b p q, updateReticle pose s = set_reticle b p q s.
Proof.
  unfold updateReticle, set_reticle_visible.
  destruct (hitTestSource s); [destruct pose as [[p q]|]|]; eauto.
Qed.

Lemma popDue_up (nowMs : Q) (s : State) :
  moleState s = up -> popDue nowMs s = false.
Proof. unfold popDue. intros ->. reflexivity. Qed.

Lemma hideDue_spec (nowMs : Q) (s : State) :
  hideDue nowMs s = true <->
  moleState s = up /\ UP_DURATION < nowMs - upSince s /\ mole_anim s = None.
Proof.
  unfold hideDue, is_up.
  rewrite !andb_true_iff, negb_true_iff, Qle_bool_false.
  destruct (moleState s), (mole_anim s); intuition congruence.
Qed.

Lemma hideDue_anim (nowMs : Q) (s : State) (a : Anim) :
  mole_anim s = Some a -> hideDue nowMs s = false.
Proof. unfold hideDue. intros ->. apply andb_false_r. Qed.

Lemma run_total (evs : list Event) (s : State) :
  Inv s -> forallb event_ok evs = true ->
  exists s', run evs s = Some s' /\ Inv s'.
Proof.
  revert s. induction evs as [|ev evs IH]; cbn; intros s I Hok; [eauto|].
  apply andb_true_iff in Hok. destruct Hok as [Hev Hevs].
  destruct (step_Inv ev s I Hev) as (s1 & E & I1). rewrite E. auto.
Qed.

(** The streak changes in a frame exactly when the timeout block fires. *)
Lemma frame_streak (ev : Event) (s s' : State) :
  is_frame ev = true -> step ev s = Some s' ->
  streak s' = if missFires ev s then 0%Z else streak s.
Proof.
  destruct ev; try discriminate. intros _. cbn. unfold onXRFrame.
  destruct (updateReticle_shape pose s) as (b & p & q & E).
  assert (Hs : streak (updateReticle pose s) = streak s)
    by (rewrite E; reflexivity).
  destruct (negb (paused (updateReticle pose s))
            && placed (updateReticle pose s)).
  - unfold updateMole.
    destruct (popBlock time uPop (updateReticle pose s)) as [s1|] eqn:E1;
      [|discriminate].
    destruct (animBlock time uNext s1) as [s2|] eqn:E2; [|discriminate].
    intro H; inversion H; subst.
    apply popBlock_frame in E1. apply animBlock_frame in E2.
    unfold hideBlock. destruct (hideDue time s2); cbn;
      intuition congruence.
  - intro H; inversion H; subst. assumption.
Qed.

Lemma frames_keep_streak_zero (evs : list Event) (s s' : State) :
  forallb is_frame evs = true -> streak s = 0%Z -> run evs s = Some s' ->
  streak s' = 0%Z.
Proof.
  revert s. induction evs as [|ev evs IH]; cbn; intros s Hf Hz Hr.
  - congruence.
  - apply andb_true_iff in Hf. destruct Hf as [Hf Hfs].
    destruct (step ev s) as [s1|] eqn:E; [|discriminate].
    apply (IH s1); [assumption| |assumption].
    rewrite (frame_streak ev s s1 Hf E). destruct (missFires ev s); auto.
Qed.

Lemma frames_keep_score (evs : list Event) (s s' : State) :
  forallb is_frame evs = true -> run evs s = Some s' -> score s' = score s.
Proof.
  revert s. induction evs as [|ev evs IH]; cbn; intros s Hf Hr.
  - congruence.
  - apply andb_true_iff in Hf. destruct Hf as [Hf Hfs].
    destruct (step ev s) as [s1|] eqn:E; [|discriminate].
    rewrite (IH s1 Hfs Hr).
    destruct ev; try discriminate. apply onXRFrame_score in E. exact E.
Qed.

(** Once [moleState] is ['down'], no frame resets the streak before the
    next pop. *)
Lemma down_no_miss (ev : Event) (s : State) :
  moleState s = down -> popFires ev s = false -> missFires ev s = false.
Proof.
  intros M Hp. destruct ev; try reflexivity. cbn in *.
  destruct (updateReticle_shape pose s) as (b & p & q & E).
  assert (Mr : moleState (updateReticle pose s) = down)
    by (rewrite E; exact M).
  destruct (negb (paused (updateReticle pose s))
            && placed (updateReticle pose s)); [|reflexivity].
  cbn in Hp. rewrite (popBlock_not_due _ _ _ Hp).
  destruct (animBlock time uNext (updateReticle pose s)) as [s2|] eqn:E2;
    [|reflexivity].
  apply animBlock_frame in E2.
  destruct E2 as (_ & _ & _ & _ & _ & _ & _ & A).
  unfold hideDue. rewrite (A Mr). reflexivity.
Qed.

Lemma down_cycleMisses (evs : list Event) (s : State) :
  forallb is_frame evs = true -> moleState s = down ->
  cycleMisses evs s = 0%nat.
Proof.
  revert s. induction evs as [|ev evs IH]; cbn; intros s Hf M; [reflexivity|].
  apply andb_true_iff in Hf. destruct Hf as [Hf Hfs].
  destruct (popFires ev s) eqn:Hp; [reflexivity|].
  rewrite (down_no_miss ev s M Hp).
  destruct (step ev s) as [s1|] eqn:E; [|reflexivity].
  assert (Hplay : is_play ev = true) by (destruct ev; auto; discriminate).
  destruct (down_step_quiet ev s s1 M Hplay Hp E) as (_ & _ & M1).
  rewrite (IH s1 Hfs M1). reflexivity.
Qed.

(** A frame during the retreat that follows a timeout. *)
Lemma hiding_frame (ev : Event) (s s' : State) (a : Anim) :
  Inv s -> is_frame ev = true ->
  moleState s = up -> mole_anim s = Some a -> kind a = hide ->
  step ev s = Some s' ->
  popFires ev s = false /\ missFires ev s = false
  /\ (moleState s' = down \/ (moleState s' = up /\ mole_anim s' = Some a)).
Proof.
  intros I Hf M A K. destruct ev; try discriminate. cbn.
  unfold onXRFrame.
  destruct (updateReticle_shape pose s) as (b & p & q & E).
  set (r := updateReticle pose s) in *.
  assert (Mr : moleState r = up) by (rewrite E; exact M).
  assert (Ar : mole_anim r = Some a) by (rewrite E; exact A).
  assert (Vr : mole_visible r = true)
    by (rewrite E; cbn; apply (inv_up_visible s I M)).
  rewrite (popDue_up _ _ Mr), andb_false_r.
  destruct (negb (paused r) && placed r).
  - unfold updateMole. rewrite (popBlock_not_due _ _ _ (popDue_up _ _ Mr)).
    unfold animBlock. rewrite Vr, Ar.
    destruct (index (holes r) (activeHoleIndex r)) as [hole|];
      [|discriminate].
    destruct (Qle_bool 1 _); rewrite ?K.
    + intro H; inversion H; subst. cbn. auto.
    + intro H; inversion H; subst.
      unfold hideBlock, hideDue; cbn. rewrite Mr, Ar, andb_false_r. cbn.
      auto.
  - intro H; inversion H; subst. auto.
Qed.

Lemma hiding_cycleMisses (evs : list Event) (s : State) (a : Anim) :
  Inv s -> forallb is_frame evs = true -> forallb event_ok evs = true ->
  moleState s = up -> mole_anim s = Some a -> kind a = hide ->
  cycleMisses evs s = 0%nat.
Proof.
  revert s. induction evs as [|ev evs IH]; cbn; intros s I Hf Hok M A K;
    [reflexivity|].
  apply andb_true_iff in Hf. destruct Hf as [Hf Hfs].
  apply andb_true_iff in Hok. destruct Hok as [Hev Hevs].
  destruct (step_Inv ev s I Hev) as (s1 & E & I1). rewrite E.
  destruct (hiding_frame ev s s1 a I Hf M A K E) as (Hp & Hm & Hnext).
  rewrite Hp, Hm. cbn.
  destruct Hnext as [M1|[M1 A1]].
  - apply down_cycleMisses; assumption.
  - apply (IH s1); assumption.
Qed.

Lemma waiting_phase (s : State) :
  waiting s <-> phase s = Rising \/ phase s = Up.
Proof.
  unfold waiting, phase.
  destruct (moleState s), (mole_anim s) as [a|]; try destruct (kind a);
    destruct (mole_visible s); intuition congruence.
Qed.

(** A frame while the target is Rising or Up: it times out exactly when the
    session is not paused and the frame comes more than [UP_DURATION] after
    [upSince]; otherwise the target stays Rising or Up. *)
Lemma waiting_frame (ev : Event) (s s' : State) :
  Inv s -> is_frame ev = true -> waiting s ->
  step ev s = Some s' ->
  popFires ev s = false
  /\ missFires ev s = negb (paused s) && overdue (upSince s) ev
  /\ paused s' = paused s
  /\ if missFires ev s
     then moleState s' = up
          /\ exists a, mole_anim s' = Some a /\ kind a = hide
     else waiting s' /\ upSince s' = upSince s.
Proof.
  intros I Hf [M W]. destruct ev; try discriminate. cbn.
  unfold onXRFrame.
  destruct (updateReticle_shape pose s) as (b & p & q & E).
  set (r := updateReticle pose s) in *.
  assert (Mr : moleState r = up) by (rewrite E; exact M).
  assert (Ar : mole_anim r = mole_anim s) by (rewrite E; reflexivity).
  assert (Ur : upSince r = upSince s) by (rewrite E; reflexivity).
  assert (Pr : paused r = paused s) by (rewrite E; reflexivity).
  assert (V : mole_visible s = true) by (apply (inv_up_visible s I M)).
  assert (Vr : mole_visible r = true) by (rewrite E; exact V).
  assert (Plr : placed r = true).
  { rewrite E; cbn. apply (inv_visible_placed s I V). }
  assert (Hr : index (holes r) (activeHoleIndex r)
               = index (holes s) (activeHoleIndex s))
    by (rewrite E; reflexivity).
  rewrite (popDue_up _ _ Mr), andb_false_r, Plr, andb_true_r, Pr.
  destruct (paused s); cbn.
  - intro H; apply Some_eq in H; subst s'.
    repeat split; auto. rewrite Ar. exact W.
  - unfold updateMole. rewrite (popBlock_not_due _ _ _ (popDue_up _ _ Mr)).
    unfold animBlock. rewrite Vr, Ar, Hr.
    destruct (mole_anim s) as [a|] eqn:A.
    + (* Rising *)
      destruct (index_Some (holes s) _ (inv_visible_index s I V))
        as [hole Hi].
      pose proof (inv_anim s I a A) as Ha. unfold anim_ok in Ha.
      rewrite W in Ha.
      pose proof (inv_pop_since s I M a A W) as Ht.
      rewrite Hi, Math_min_one_ge.
      assert (Hd : dur a = 180) by (rewrite Ha; reflexivity).
      rewrite Hd, Ht.
      destruct (Qle_bool 1 ((time - upSince s) / 180)) eqn:G.
      * rewrite W.
        assert (HD : forall x,
                  hideDue time (set_mole_anim None (set_mole_position x r))
                  = negb (Qle_bool (time - upSince s) UP_DURATION)).
        { intro x. unfold hideDue. cbn. rewrite Mr, Ur. cbn.
          apply andb_true_r. }
        rewrite HD. unfold hideBlock. rewrite HD.
        intro H; apply Some_eq in H; subst s'.
        destruct (negb (Qle_bool (time - upSince s) UP_DURATION)); cbn.
        -- repeat split; auto. eexists; split; reflexivity.
        -- repeat split; auto.
      * assert (HD : forall x,
                  hideDue time (set_mole_position x r) = false).
        { intro x. apply (hideDue_anim time _ a). cbn. congruence. }
        rewrite HD. unfold hideBlock. rewrite HD.
        intro H; apply Some_eq in H; subst s'.
        replace (Qle_bool (time - upSince s) UP_DURATION) with true.
        -- cbn. repeat split; auto. cbn. rewrite Ar. exact W.
        -- symmetry. apply Qle_bool_iff. apply Qle_bool_false in G.
           assert (Hlt : time - upSince s < 180).
           { apply Qnot_le_lt. intro Hge.
             apply (proj2 (one_le_div (time - upSince s) 180 ltac:(lra)))
               in Hge. lra. }
           unfold UP_DURATION. lra.
    + (* Up *)
      assert (HD : hideDue time r
                   = negb (Qle_bool (time - upSince s) UP_DURATION)).
      { unfold hideDue. rewrite Mr, Ar, Ur. cbn. apply andb_true_r. }
      rewrite HD. unfold hideBlock. rewrite HD.
      intro H; apply Some_eq in H; subst s'.
      destruct (negb (Qle_bool (time - upSince s) UP_DURATION)); cbn.
      * repeat split; auto. eexists; split; reflexivity.
      * repeat split; auto. rewrite Ar. exact W.
Qed.

Lemma waiting_cycleMisses (evs : list Event) (s : State) :
  Inv s -> forallb is_frame evs = true -> forallb event_ok evs = true ->
  waiting s ->
  cycleMisses evs s
  = if negb (paused s) && existsb (overdue (upSince s)) evs
    then 1%nat else 0%nat.
Proof.
  revert s. induction evs as [|ev evs IH]; cbn; intros s I Hf Hok W.
  - rewrite andb_false_r. reflexivity.
  - apply andb_true_iff in Hf. destruct Hf as [Hf Hfs].
    apply andb_true_iff in Hok. destruct Hok as [Hev Hevs].
    destruct (step_Inv ev s I Hev) as (s1 & E & I1). rewrite E.
    destruct (waiting_frame ev s s1 I Hf W E) as (Hp & Hm & P1 & Hnext).
    rewrite Hp. destruct (missFires ev s) eqn:F.
    + destruct Hnext as (M1 & a & A1 & K).
      rewrite (hiding_cycleMisses evs s1 a I1 Hfs Hevs M1 A1 K).
      symmetry in Hm. apply andb_true_iff in Hm. destruct Hm as [Hm1 Hm2].
      rewrite Hm1, Hm2. reflexivity.
    + destruct Hnext as (W1 & U1).
      rewrite (IH s1 I1 Hfs Hevs W1), P1, U1. cbn.
      symmetry in Hm. apply andb_false_iff in Hm.
      destruct Hm as [Hm|Hm]; rewrite Hm; cbn; reflexivity.
Qed.

Lemma waiting_run_streak (evs : list Event) (s s' : State) :
  Inv s -> forallb is_frame evs = true -> forallb event_ok evs = true ->
  waiting s ->
  run evs s = Some s' ->
  streak s' = if negb (paused s) && existsb (overdue (upSince s)) evs
              then 0%Z else streak s.
Proof.
  revert s. induction evs as [|ev evs IH]; cbn; intros s I Hf Hok W Hr.
  - rewrite andb_false_r. congruence.
  - apply andb_true_iff in Hf. destruct Hf as [Hf Hfs].
    apply andb_true_iff in Hok. destruct Hok as [Hev Hevs].
    destruct (step_Inv ev s I Hev) as (s1 & E & I1). rewrite E in Hr.
    destruct (waiting_frame ev s s1 I Hf W E) as (_ & Hm & P1 & Hnext).
    pose proof (frame_streak ev s s1 Hf E) as Hs.
    destruct (missFires ev s) eqn:F.
    + symmetry in Hm. apply andb_true_iff in Hm. destruct Hm as [Hm1 Hm2].
      rewrite Hm1, Hm2. cbn.
      apply (frames_keep_streak_zero evs s1); assumption.
    + destruct Hnext as (W1 & U1).
      rewrite (IH s1 I1 Hfs Hevs W1 Hr), P1, U1, Hs.
      symmetry in Hm. apply andb_false_iff in Hm.
      destruct Hm as [Hm|Hm]; rewrite Hm; cbn; reflexivity.
Qed.

(** C2. From every reachable state whose target is Rising or Up, whatever
    frames follow (no tap being delivered): the score is unchanged; the
    streak is reset by the timeout block exactly once before the next pop
    if the session is not paused and some frame comes more than
    [UP_DURATION] after [upSince], and never otherwise; and the streak is
    then 0, and unchanged otherwise. *)
Theorem C2_timeout_resets_streak_once (s : State) (evs : list Event) :
  reachable s -> phase s = Rising \/ phase s = Up ->
  forallb is_frame evs = true -> forallb event_ok evs = true ->
  exists s',
    run evs s = Some s'
    /\ score s' = score s
    /\ cycleMisses evs s
       = (if negb (paused s) && existsb (overdue (upSince s)) evs
          then 1%nat else 0%nat)
    /\ streak s'
       = (if negb (paused s) && existsb (overdue (upSince s)) evs
          then 0%Z else streak s).
Proof.
  intros R P Hf Hok.
  apply waiting_phase in P.
  pose proof (reachable_Inv s R) as I.
  destruct (run_total evs s I Hok) as (s' & Hr & _).
  exists s'. split; [exact Hr|].
  split; [apply (frames_keep_score evs s s' Hf Hr)|].
  split; [apply waiting_cycleMisses; assumption|].
  apply waiting_run_streak; assumption.
Qed.

(** Up since 700: of the frames at 1000, 1601, 1617 and 1800, the one at
    1601 resets the streak, and only that one. *)
Lemma C2_timeout_resets_streak_once_witness :
  exists s',
    run lateFrames upState = Some s'
    /\ score s' = score upState
    /\ cycleMisses lateFrames upState = 1%nat
    /\ streak s' = 0%Z.
Proof.
  destruct (C2_timeout_resets_streak_once upState lateFrames
              upState_reachable (or_intror upState_Up) eq_refl eq_refl)
    as (s' & H1 & H2 & H3 & H4).
  exists s'. split; [exact H1|]. split; [exact H2|].
  split; [rewrite H3 | rewrite H4]; vm_compute; reflexivity.
Defined.

(** ** Taps *)

Lemma risingState_reachable : reachable risingState.
Proof.
  apply (reachable_of_run [SessionStart 0 0; PointerDown (tap false) 0 0;
                           Frame 700 None 0 0]); vm_compute; reflexivity.
Qed.

Lemma hidingState_reachable : reachable hidingState.
Proof.
  apply (reachable_of_run (toUp ++ [Frame 1601 None 0 0]));
    vm_compute; reflexivity.
Qed.

Lemma downState_reachable : reachable downState.
Proof.
  apply (reachable_of_run
           (toUp ++ [Frame 1601 None 0 0; Frame 1761 None 0 0]));
    vm_compute; reflexivity.
Qed.

(** C3, as stated, fails: during the rise animation, and during the retreat
    animation that follows a timeout, the target is not Up, yet a tap that
    meets it changes the score, the streak and the target's state. *)
Lemma C3_counterexample :
  (reachable risingState /\ phase risingState = Rising
   /\ score (onPointerDown (tap true) 750 0 risingState)
      = (score risingState + 1)%Z
   /\ streak (onPointerDown (tap true) 750 0 risingState)
      = (streak risingState + 1)%Z
   /\ phase (onPointerDown (tap true) 750 0 risingState) = Retreating)
  /\ (reachable hidingState /\ phase hidingState = Retreating
      /\ streak hidingState = 0%Z
      /\ score (onPointerDown (tap true) 1650 0 hidingState)
         = (score hidingState + 1)%Z
      /\ streak (onPointerDown (tap true) 1650 0 hidingState) = 1%Z).
Proof.
  split.
  - split; [exact risingState_reachable|]. vm_compute. auto.
  - split; [exact hidingState_reachable|]. vm_compute. auto.
Qed.

(** C3, amended.  In every reachable state: while [moleState] is ['down']
    (the target is Down, or Retreating after a hit) or when the tap does not
    meet the mole, a tap leaves score, streak and the target's state
    unchanged; while [moleState] is ['up'], which includes the rise
    animation and the retreat animation after a timeout, a tap that meets
    the mole is honoured as a hit. *)
Theorem C3_taps_gated_by_moleState (s : State) (e : Pointer) (now u : Q) :
  reachable s ->
  (moleState s = down \/ hit e = false ->
     score (onPointerDown e now u s) = score s
     /\ streak (onPointerDown e now u s) = streak s
     /\ phase (onPointerDown e now u s) = phase s)
  /\ (moleState s = up -> hit e = true ->
        score (onPointerDown e now u s) = (score s + 1)%Z
        /\ streak (onPointerDown e now u s) = (streak s + 1)%Z
        /\ phase (onPointerDown e now u s) = Retreating).
Proof.
  intros R. pose proof (reachable_Inv s R) as I. split.
  - intros H. unfold onPointerDown. destruct (placed s) eqn:P; cbn.
    + assert (G : hit e && is_up (moleState s) = false).
      { destruct H as [H|H]; rewrite H; [apply andb_false_r | reflexivity]. }
      rewrite G. auto.
    + destruct (reticle_visible s); unfold phase; cbn; auto.
  - intros M Hh.
    pose proof (inv_up_visible s I M) as V.
    pose proof (inv_visible_placed s I V) as P.
    unfold onPointerDown, whackMole. rewrite P, Hh, M. cbn.
    unfold phase; cbn. rewrite V. auto.
Qed.

Lemma C3_taps_gated_by_moleState_witness :
  reachable downState /\ moleState downState = down
  /\ score (onPointerDown (tap true) 1800 0 downState) = score downState
  /\ streak (onPointerDown (tap true) 1800 0 downState) = streak downState
  /\ phase (onPointerDown (tap true) 1800 0 downState) = phase downState.
Proof.
  split; [exact downState_reachable|]. split; [reflexivity|].
  destruct (C3_taps_gated_by_moleState downState (tap true) 1800 0
              downState_reachable) as [H _].
  apply H. left. reflexivity.
Defined.

(** ** The active hole index *)

(** C4, as stated, fails: once the mole has popped, [activeHoleIndex] stays
    a valid index while the target is Rising, Retreating and Down. *)
Lemma C4_counterexample :
  reachable downState /\ phase downState = Down
  /\ activeHoleIndex downState = 0%Z /\ length (holes downState) = 9%nat
  /\ valid_index downState.
Proof.
  split; [exact downState_reachable|]. vm_compute.
  repeat split; congruence.
Qed.

(** C4, amended.  In every reachable state, if the target is Up (indeed
    whenever the mole is visible) then [activeHoleIndex] is a valid index
    into [holes].  The converse does not hold: [activeHoleIndex] is assigned
    only when the mole pops, and neither the animation block, where the
    retreat ends, nor [resetGame] changes it. *)
Theorem C4_up_has_valid_index (s : State) :
  reachable s ->
  (phase s = Up -> valid_index s)
  /\ (mole_visible s = true -> valid_index s)
  /\ activeHoleIndex (resetGame s) = activeHoleIndex s
  /\ (forall nowMs u s', animBlock nowMs u s = Some s' ->
        activeHoleIndex s' = activeHoleIndex s).
Proof.
  intros R. pose proof (reachable_Inv s R) as I.
  split; [|split; [|split]].
  - intros P. apply phase_Up_iff in P. destruct P as [M _].
    apply (inv_visible_index s I). apply (inv_up_visible s I M).
  - apply (inv_visible_index s I).
  - reflexivity.
  - intros nowMs u s' H. apply animBlock_frame in H. tauto.
Qed.

Lemma C4_up_has_valid_index_witness :
  reachable upState /\ phase upState = Up /\ valid_index upState.
Proof.
  split; [exact upState_reachable|]. split; [exact upState_Up|].
  destruct (C4_up_has_valid_index upState upState_reachable) as [H _].
  exact (H upState_Up).
Defined.
(** ** The grid *)

Lemma holePosition_localOffset (p : Vector3) (q : Quaternion) (r c : nat) :
  veq (holePosition p q r c)
      (add (applyQuaternion (localOffset GRID GRID SPACING r c) q) p).
Proof.
  unfold veq, holePosition, localOffset, applyQuaternion, add, SPACING.
  change (inject_Z (Z.of_nat GRID - 1)) with 2.
  change (inject_Z (Z.of_nat GRID)) with 3.
  generalize (inject_Z (Z.of_nat r)) (inject_Z (Z.of_nat c)). intros x z.
  destruct p as [px py pz], q as [a b d w].
  cbn [vx vy vz qx qy qz qw]. repeat split; field.
Qed.

Lemma gridPositions_nth (p : Vector3) (q : Quaternion) (r c : nat) :
  (r < GRID)%nat -> (c < GRID)%nat ->
  nth_error (gridPositions p q) (r * GRID + c) = Some (holePosition p q r c).
Proof.
  unfold GRID. intros Hr Hc.
  assert (Hr' : r = 0%nat \/ r = 1%nat \/ r = 2%nat) by lia.
  assert (Hc' : c = 0%nat \/ c = 1%nat \/ c = 2%nat) by lia.
  destruct Hr' as [->|[->| ->]]; destruct Hc' as [->|[->| ->]]; reflexivity.
Qed.

(** C5. For every anchor pose, [buildGrid] replaces [holes] by exactly
    [GRID * GRID = 9] positions that depend on the pose of [gridRoot] only;
    the position of row [r] and column [c] is the local offset
    [((c - (cols-1)/2) * spacing, 0, (r - (rows-1)/2) * spacing)] rotated by
    the anchor's quaternion and translated by its position; with the
    identity quaternion the nine offsets from the anchor are the set
    [{-0.38, 0, 0.38}²]. *)
Theorem C5_grid_layout (s : State) (r c : nat) :
  (r < GRID)%nat -> (c < GRID)%nat ->
  holes (buildGrid s)
  = gridPositions (gridRoot_position s) (gridRoot_quaternion s)
  /\ length (holes (buildGrid s)) = (GRID * GRID)%nat
  /\ (exists h,
        nth_error (holes (buildGrid s)) (r * GRID + c) = Some h
        /\ veq h (add (applyQuaternion (localOffset GRID GRID SPACING r c)
                                       (gridRoot_quaternion s))
                      (gridRoot_position s)))
  /\ (forall p, Forall2 veq (gridPositions p identityQ)
                            (map (fun o => add o p) squareOffsets)).
Proof.
  intros Hr Hc.
  split; [reflexivity|]. split; [reflexivity|]. split.
  - exists (holePosition (gridRoot_position s) (gridRoot_quaternion s) r c).
    split.
    + change (holes (buildGrid s))
        with (gridPositions (gridRoot_position s) (gridRoot_quaternion s)).
      apply gridPositions_nth; assumption.
    + apply holePosition_localOffset.
  - intros [px py pz].
    unfold gridPositions, squareOffsets, GRID.
    cbn [flat_map map seq app].
    repeat (apply Forall2_cons || apply Forall2_nil);
      unfold veq, holePosition, applyQuaternion, add, identityQ, SPACING;
      change (inject_Z (Z.of_nat GRID - 1)) with 2;
      change (inject_Z (Z.of_nat 0)) with 0;
      change (inject_Z (Z.of_nat 1)) with 1;
      change (inject_Z (Z.of_nat 2)) with 2;
      cbn [vx vy vz qx qy qz qw]; repeat split; field.
Qed.

Lemma C5_grid_layout_witness :
  exists h,
    nth_error (holes (buildGrid upState)) (1 * GRID + 2) = Some h
    /\ veq h (add (applyQuaternion (localOffset GRID GRID SPACING 1 2)
                                   (gridRoot_quaternion upState))
                  (gridRoot_position upState)).
Proof.
  destruct (C5_grid_layout upState 1 2) as (_ & _ & H & _).
  - unfold GRID; lia.
  - unfold GRID; lia.
  - exact H.
Defined.

(** ** Reset *)

(** C10. [resetGame] always leaves [paused] false, besides zeroing the
    counters, unplacing, emptying [holes] and putting the mole down and out
    of sight; so whatever the state it was called in, paused or not, the
    frames that follow the next placement run [updateMole]. *)
Theorem C10_reset_unpauses (s : State) :
  paused (resetGame s) = false
  /\ score (resetGame s) = 0%Z /\ streak (resetGame s) = 0%Z
  /\ placed (resetGame s) = false /\ holes (resetGame s) = []
  /\ moleState (resetGame s) = down /\ mole_visible (resetGame s) = false
  /\ mole_anim (resetGame s) = None
  /\ forall e now u time pose uPop uNext,
       onXRFrame time pose uPop uNext (onPointerDown e now u (resetGame s))
       = updateMole time uPop uNext
           (updateReticle pose (onPointerDown e now u (resetGame s))).
Proof.
  repeat (split; [reflexivity|]).
  intros e now u time pose uPop uNext. unfold onXRFrame.
  destruct (updateReticle_shape pose (onPointerDown e now u (resetGame s)))
    as (b & p & q & E).
  rewrite E. unfold onPointerDown. cbn.
  destruct (reticle_visible s); reflexivity.
Qed.

(** ** The rise *)

Lemma popBlock_fires (t u : Q) (s s1 : State) :
  popDue t s = true -> popBlock t u s = Some s1 ->
  moleState s1 = up /\ mole_visible s1 = true
  /\ mole_anim s1 = Some (mkAnim pop t 180 (-0.02) 0.16)
  /\ upSince s1 = t
  /\ exists hole, index (holes s1) (activeHoleIndex s1) = Some hole.
Proof.
  intros D. unfold popBlock. rewrite D.
  destruct (index (holes s) _) as [hole|] eqn:Hi; [|discriminate].
  intro H; inversion H; subst. cbn. repeat split. eauto.
Qed.

(** The state left by a call of [updateMole] in which the mole pops. *)
Lemma updateMole_pop (t uPop uNext : Q) (s s0 : State) :
  popDue t s = true -> updateMole t uPop uNext s = Some s0 ->
  moleState s0 = up /\ mole_visible s0 = true
  /\ mole_anim s0 = Some (mkAnim pop t 180 (-0.02) 0.16)
  /\ upSince s0 = t
  /\ exists hole, index (holes s0) (activeHoleIndex s0) = Some hole.
Proof.
  intros D. unfold updateMole.
  destruct (popBlock t uPop s) as [s1|] eqn:E1; [|discriminate].
  destruct (popBlock_fires t uPop s s1 D E1) as (M & V & A & U & hole & Hi).
  unfold animBlock. rewrite V, A, Hi. cbn [kind t0 dur from to].
  rewrite Math_min_one_ge.
  replace (Qle_bool 1 ((t - t) / 180)) with false.
  - unfold hideBlock, hideDue. cbn. rewrite A, andb_false_r.
    intro H; inversion H; subst. cbn. repeat split; try assumption. eauto.
  - symmetry. apply Qle_bool_false.
    setoid_replace ((t - t) / 180) with 0 by field. lra.
Qed.

(** Let the pop trigger fire in the call of [updateMole] at [t]; the
    target is then Rising.  In the next call, at [now]: the animation block
    leaves the target Up exactly when [now - t >= 180], and Rising exactly
    when [now - t < 180]; the call reports Rising for every [now] with
    [now - t < 180] and Up for every [now] with
    [180 <= now - t <= UP_DURATION]. *)
Lemma rise_first_call (t uPop uNext now u1 u2 : Q) (s s0 : State) :
  popDue t s = true -> updateMole t uPop uNext s = Some s0 ->
  phase s0 = Rising
  /\ exists sA s1,
       popBlock now u1 s0 = Some s0
       /\ animBlock now u2 s0 = Some sA
       /\ updateMole now u1 u2 s0 = Some s1
       /\ (phase sA = Up <-> 180 <= now - t)
       /\ (phase sA = Rising <-> now - t < 180)
       /\ (now - t < 180 -> phase s1 = Rising)
       /\ (180 <= now - t -> now - t <= UP_DURATION -> phase s1 = Up).
Proof.
  intros D E.
  destruct (updateMole_pop t uPop uNext s s0 D E)
    as (M & V & A & U & hole & Hi).
  split; [unfold phase; rewrite M, A; reflexivity|].
  assert (P0 : popBlock now u1 s0 = Some s0)
    by (apply popBlock_not_due, popDue_up, M).
  unfold updateMole. rewrite P0. unfold animBlock. rewrite V, A, Hi.
  cbn [kind t0 dur from to]. rewrite Math_min_one_ge.
  destruct (Qle_bool 1 ((now - t) / 180)) eqn:G.
  - assert (Hge : 180 <= now - t).
    { apply (proj1 (one_le_div (now - t) 180 ltac:(lra))).
      apply Qle_bool_iff. exact G. }
    eexists. eexists. split; [reflexivity|]. split; [reflexivity|].
    split; [reflexivity|].
    unfold phase at 1 2. cbn. rewrite M.
    split; [tauto|]. split; [split; [discriminate | lra]|].
    split; [lra|]. intros _ Hle.
    unfold hideBlock, hideDue. cbn. rewrite M, U. cbn.
    replace (Qle_bool (now - t) UP_DURATION) with true
      by (symmetry; apply Qle_bool_iff; exact Hle).
    cbn. unfold phase. cbn. rewrite M. reflexivity.
  - assert (Hlt : now - t < 180).
    { apply Qle_bool_false in G. apply Qnot_le_lt. intro H.
      apply (proj2 (one_le_div (now - t) 180 ltac:(lra))) in H. lra. }
    eexists. eexists. split; [reflexivity|]. split; [reflexivity|].
    split; [reflexivity|].
    unfold phase at 1 2. cbn. rewrite M, A. cbn.
    split; [split; [discriminate | lra]|]. split; [tauto|].
    split; [|lra]. intros _.
    unfold hideBlock, hideDue. cbn. rewrite A, andb_false_r.
    unfold phase. cbn. rewrite M, A. reflexivity.
Qed.

(** A frame during the rise that started at [t], the session not being
    paused: it reports Rising before [t + 180], Up from [t + 180] to
    [t + UP_DURATION], and later than that it ends the rise and times out
    in the same call. *)
Lemma rising_frame (time : Q) pose (uPop uNext : Q) (s : State) (t : Q) :
  Inv s -> paused s = false -> moleState s = up ->
  mole_anim s = Some (mkAnim pop t 180 (-0.02) 0.16) -> upSince s = t ->
  exists s',
    step (Frame time pose uPop uNext) s = Some s'
    /\ paused s' = false
    /\ (time - t < 180 ->
        moleState s' = up
        /\ mole_anim s' = Some (mkAnim pop t 180 (-0.02) 0.16)
        /\ upSince s' = t /\ phase s' = Rising)
    /\ (180 <= time - t -> time - t <= UP_DURATION -> phase s' = Up)
    /\ (UP_DURATION < time - t -> phase s' = Retreating /\ streak s' = 0%Z).
Proof.
  intros I Pa M A U.
  pose proof (inv_up_visible s I M) as V.
  pose proof (inv_visible_placed s I V) as Pl.
  destruct (index_Some (holes s) _ (inv_visible_index s I V)) as [hole Hi].
  cbn [step]. unfold onXRFrame.
  destruct (updateReticle_shape pose s) as (b & p & q & E). rewrite E.
  cbn [paused placed set_reticle]. rewrite Pa, Pl. cbn [negb andb].
  unfold updateMole.
  rewrite popBlock_not_due by (apply popDue_up; exact M).
  unfold animBlock. cbn [mole_visible mole_anim holes activeHoleIndex
                         set_reticle].
  rewrite V, A, Hi, Math_min_one_ge. cbn [kind t0 dur from to].
  destruct (Qle_bool 1 ((time - t) / 180)) eqn:G.
  - assert (Hge : 180 <= time - t).
    { apply (proj1 (one_le_div (time - t) 180 ltac:(lra))).
      apply Qle_bool_iff. exact G. }
    unfold hideBlock, hideDue.
    cbn [moleState mole_anim upSince set_mole_anim set_mole_position
         set_reticle].
    rewrite M, U. cbn [is_up andb].
    destruct (Qle_bool (time - t) UP_DURATION) eqn:L; cbn [negb andb].
    + apply Qle_bool_iff in L.
      eexists. split; [reflexivity|]. split; [exact Pa|].
      split; [intros Hlt; lra|]. split; [|intros Hgt; lra].
      intros _ _. unfold phase. cbn. rewrite M. reflexivity.
    + apply Qle_bool_false in L.
      eexists. split; [reflexivity|]. split; [exact Pa|].
      split; [intros Hlt; lra|]. split; [intros _ Hle; lra|].
      intros _. unfold phase. cbn. rewrite M. split; reflexivity.
  - assert (Hlt : time - t < 180).
    { apply Qle_bool_false in G. apply Qnot_le_lt. intro H.
      apply (proj2 (one_le_div (time - t) 180 ltac:(lra))) in H. lra. }
    unfold hideBlock.
    rewrite (hideDue_anim time _ (mkAnim pop t 180 (-0.02) 0.16))
      by (cbn; exact A).
    eexists. split; [reflexivity|]. split; [exact Pa|].
    split.
    + intros _. unfold phase. cbn. rewrite M, A. cbn. auto.
    + unfold UP_DURATION. split; [intros Hge; lra | intros Hgt; lra].
Qed.

Lemma rising_run (evs : list Event) (s : State) (t : Q) :
  Inv s -> paused s = false -> moleState s = up ->
  mole_anim s = Some (mkAnim pop t 180 (-0.02) 0.16) -> upSince s = t ->
  forallb (risingAt t) evs = true -> forallb event_ok evs = true ->
  exists s',
    run evs s = Some s' /\ Inv s' /\ paused s' = false
    /\ moleState s' = up
    /\ mole_anim s' = Some (mkAnim pop t 180 (-0.02) 0.16)
    /\ upSince s' = t.
Proof.
  revert s. induction evs as [|ev evs IH]; cbn [run forallb];
    intros s I Pa M A U Hr Hok.
  - exists s. auto 10.
  - apply andb_true_iff in Hr. destruct Hr as [Hr Hrs].
    apply andb_true_iff in Hok. destruct Hok as [Hev Hevs].
    destruct ev; try discriminate Hr. cbn in Hr.
    apply negb_true_iff, Qle_bool_false in Hr.
    destruct (rising_frame time pose uPop uNext s t I Pa M A U)
      as (s1 & E1 & Pa1 & Hrise & _).
    destruct (Hrise Hr) as (M1 & A1 & U1 & _).
    destruct (step_Inv _ s I Hev) as (s1' & E1' & I1).
    rewrite E1 in E1'. apply Some_eq in E1'. subst s1'.
    rewrite E1. apply (IH s1); assumption.
Qed.

Lemma beforePop1000_reachable : reachable beforePop1000.
Proof.
  apply (reachable_of_run [SessionStart 0 0; PointerDown (tap false) 300 0]);
    vm_compute; reflexivity.
Qed.

(** C6, as stated, fails.  The mole pops at 1000; at the first call after
    that, at 1901, [now - t0 >= 180] holds but the state reported is not Up:
    the call ends the rise and, 900 ms being over since the pop, goes on to
    the timeout: the target is Retreating and the streak is reset. *)
Lemma C6_counterexample :
  exists s0 s1,
    reachable beforePop1000
    /\ popFires (Frame 1000 None 0 0) beforePop1000 = true
    /\ step (Frame 1000 None 0 0) beforePop1000 = Some s0
    /\ phase s0 = Rising
    /\ step (Frame 1901 None 0 0) s0 = Some s1
    /\ updateMole 1901 0 0 s0 = Some s1
    /\ 180 <= 1901 - 1000
    /\ phase s1 = Retreating /\ phase s1 <> Up /\ streak s1 = 0%Z.
Proof.
  destruct (step (Frame 1000 None 0 0) beforePop1000) as [s0|] eqn:E0;
    [|vm_compute in E0; discriminate E0].
  destruct (step (Frame 1901 None 0 0) s0) as [s1|] eqn:E1;
    vm_compute in E0; apply Some_eq in E0; subst s0;
    [|vm_compute in E1; discriminate E1].
  vm_compute in E1. apply Some_eq in E1. subst s1.
  eexists. eexists.
  split; [exact beforePop1000_reachable|].
  split; [vm_compute; reflexivity|].
  split; [reflexivity|].
  split; [vm_compute; reflexivity|].
  split; [vm_compute; reflexivity|].
  split; [vm_compute; reflexivity|].
  split; [vm_compute; discriminate|].
  vm_compute. repeat split; (reflexivity || discriminate).
Qed.

(** C6, amended.  Let the pop trigger fire in the frame at [t] of a
    reachable state, and let any frames of the rise follow, each less than
    180 ms after [t]: the state reported after the pop and after each of
    them is Rising.  The next frame, at [time], reports Rising exactly when
    [time - t < 180], Up exactly when [180 <= time - t <= UP_DURATION], and
    Retreating, the streak being reset, exactly when
    [time - t > UP_DURATION]: the timeout is counted from the pop, and a
    frame that late ends the rise and times out in one call. *)
Theorem C6_rise_reports (s : State) (t : Q)
    (pose0 : option (Vector3 * Quaternion)) (uPop0 uNext0 : Q)
    (evs : list Event) (time : Q)
    (pose : option (Vector3 * Quaternion)) (uPop uNext : Q) :
  reachable s -> random_ok uPop0 = true ->
  popFires (Frame t pose0 uPop0 uNext0) s = true ->
  forallb (risingAt t) evs = true -> forallb event_ok evs = true ->
  exists s0 s1 s2,
    step (Frame t pose0 uPop0 uNext0) s = Some s0 /\ phase s0 = Rising
    /\ run evs s0 = Some s1 /\ phase s1 = Rising
    /\ step (Frame time pose uPop uNext) s1 = Some s2
    /\ (phase s2 = Rising <-> time - t < 180)
    /\ (phase s2 = Up <-> 180 <= time - t /\ time - t <= UP_DURATION)
    /\ (phase s2 = Retreating <-> UP_DURATION < time - t)
    /\ (UP_DURATION < time - t -> streak s2 = 0%Z).
Proof.
  intros R Hu HP Hr Hok. pose proof (reachable_Inv s R) as I.
  pose proof (updateReticle_Inv pose0 s I) as Ir.
  cbn [popFires] in HP.
  apply andb_true_iff in HP. destruct HP as [HP D].
  apply andb_true_iff in HP. destruct HP as [Pa Pl].
  apply negb_true_iff in Pa.
  destruct (updateMole_Inv t uPop0 uNext0 _ Ir Pl Hu) as (s0 & E0 & I0).
  destruct (updateMole_pop t uPop0 uNext0 _ s0 D E0)
    as (M0 & V0 & A0 & U0 & _).
  assert (Pa0 : paused s0 = false).
  { rewrite <- Pa. unfold updateMole in E0.
    destruct (popBlock t uPop0 _) as [x1|] eqn:X1; [|discriminate].
    destruct (animBlock t uNext0 x1) as [x2|] eqn:X2; [|discriminate].
    apply Some_eq in E0. subst s0.
    apply popBlock_frame in X1. apply animBlock_frame in X2.
    unfold hideBlock. destruct (hideDue t x2); cbn; intuition congruence. }
  assert (S0 : step (Frame t pose0 uPop0 uNext0) s = Some s0).
  { cbn [step]. unfold onXRFrame. rewrite Pa, Pl. exact E0. }
  destruct (rising_run evs s0 t I0 Pa0 M0 A0 U0 Hr Hok)
    as (s1 & R1 & I1 & Pa1 & M1 & A1 & U1).
  destruct (rising_frame time pose uPop uNext s1 t I1 Pa1 M1 A1 U1)
    as (s2 & E2 & _ & H1 & H2 & H3).
  exists s0, s1, s2.
  split; [exact S0|].
  split; [unfold phase; rewrite M0, A0; reflexivity|].
  split; [exact R1|].
  split; [unfold phase; rewrite M1, A1; reflexivity|].
  split; [exact E2|].
  unfold UP_DURATION in *.
  destruct (Qlt_le_dec (time - t) 180) as [Ca|Ca].
  - destruct (H1 Ca) as (_ & _ & _ & Ph). rewrite Ph.
    split; [tauto|].
    split; [split; [discriminate | intros [Hx _]; lra]|].
    split; [split; [discriminate | intros Hx; lra] | intros Hx; lra].
  - destruct (Qlt_le_dec 900 (time - t)) as [Cb|Cb].
    + destruct (H3 Cb) as [Ph Hs]. rewrite Ph.
      split; [split; [discriminate | intros Hx; lra]|].
      split; [split; [discriminate | intros [_ Hx]; lra]|].
      split; [tauto | intros _; exact Hs].
    + rewrite (H2 Ca Cb).
      split; [split; [discriminate | intros Hx; lra]|].
      split; [tauto|].
      split; [split; [discriminate | intros Hx; lra] | intros Hx; lra].
Qed.

(** Scenario B: the target rises at 1000; the frame at 1090 reports Rising
    and the frame at 1180 reports Up. *)
Lemma C6_rise_reports_witness :
  exists s0 s1 s2,
    step (Frame 1000 None 0 0) beforePop1000 = Some s0
    /\ run [Frame 1090 None 0 0] s0 = Some s1 /\ phase s1 = Rising
    /\ step (Frame 1180 None 0 0) s1 = Some s2 /\ phase s2 = Up.
Proof.
  destruct (C6_rise_reports beforePop1000 1000 None 0 0
              [Frame 1090 None 0 0] 1180 None 0 0
              beforePop1000_reachable eq_refl)
    as (s0 & s1 & s2 & H0 & _ & H1 & P1 & H2 & _ & [_ HU] & _).
  - vm_compute. reflexivity.
  - vm_compute. reflexivity.
  - reflexivity.
  - exists s0, s1, s2.
    split; [exact H0|]. split; [exact H1|]. split; [exact P1|].
    split; [exact H2|]. apply HU.
    split; unfold Qle; cbn; lia.
Defined.

(** ** Scheduling the next pop *)

(** Where a retreat animation ends, the next pop is scheduled at least
    [POP_INTERVAL_MIN] later. *)
Lemma retreat_end_schedules (nowMs u : Q) (s s' : State) (a : Anim) :
  random_ok u = true ->
  mole_visible s = true -> mole_anim s = Some a -> kind a <> pop ->
  1 <= (nowMs - t0 a) / dur a ->
  animBlock nowMs u s = Some s' ->
  moleState s' = down
  /\ nextPopAt s' = nowMs + rand u POP_INTERVAL_MIN POP_INTERVAL_MAX
  /\ forall t, popDue t s' = true -> nowMs + POP_INTERVAL_MIN <= t.
Proof.
  intros Hu V A K Ht. unfold animBlock. rewrite V, A.
  destruct (index (holes s) (activeHoleIndex s)) as [hole|]; [|discriminate].
  rewrite Math_min_one_ge.
  replace (Qle_bool 1 ((nowMs - t0 a) / dur a)) with true
    by (symmetry; apply Qle_bool_iff; exact Ht).
  destruct (kind a); [congruence| |];
    intro H; inversion H; subst; cbn;
    (split; [reflexivity|]); (split; [reflexivity|]);
    intros t D; apply popDue_spec in D; cbn in D;
    destruct D as (_ & D & _);
    pose proof (rand_interval u Hu) as [R _]; lra.
Qed.

(** [whackMole] puts [moleState] to ['down'] without scheduling. *)
Lemma whackMole_keeps_nextPopAt (now : Q) (s : State) :
  nextPopAt (whackMole now s) = nextPopAt s.
Proof. unfold whackMole. destruct (is_up (moleState s)); reflexivity. Qed.

(** C7 fails on the hit path.  The mole, up since 700, is whacked at 950:
    [moleState] is ['down'] at once and [nextPopAt] is still the 700 that
    let the mole pop; the frame at 966 therefore pops the mole again, 16 ms
    after the hit and before the bonk animation could end and schedule. *)
Theorem C7_hit_path_pops_without_delay :
  exists s1 s2,
    run (toUp ++ [PointerDown (tap true) 950 0]) initial = Some s1
    /\ moleState s1 = down
    /\ nextPopAt s1 = nextPopAt upState
    /\ nextPopAt s1 == 700
    /\ popFires (Frame 966 None 0 0) s1 = true
    /\ step (Frame 966 None 0 0) s1 = Some s2
    /\ phase s2 = Rising
    /\ upSince s2 == 966.
Proof.
  destruct (run (toUp ++ [PointerDown (tap true) 950 0]) initial)
    as [s1|] eqn:E1; [|vm_compute in E1; discriminate].
  destruct (step (Frame 966 None 0 0) s1) as [s2|] eqn:E2;
    vm_compute in E1; inversion E1; subst s1;
    [|vm_compute in E2; discriminate].
  eexists. exists s2. split; [reflexivity|].
  vm_compute in E2. inversion E2; subst s2.
  vm_compute. repeat split; congruence.
Qed.
(** ** Pausing *)

Lemma upAfterHitState_reachable : reachable upAfterHitState.
Proof. apply (reachable_of_run toUpAfterHit); vm_compute; reflexivity. Qed.

(** C8, as stated, fails.  The target is Up since 966 with streak 1, so at
    1200 the timeout is 666 ms away.  Without a pause the frame at 1201
    leaves the target Up and the streak 1; with a pause from 1200 to 5000
    the frame at 5001, 1 ms after the resume, times out: the target retreats
    and the streak is 0.  Besides, a tap that meets the mole while the
    session is paused is honoured and makes the target retreat. *)
Lemma C8_counterexample :
  reachable upAfterHitState /\ phase upAfterHitState = Up
  /\ paused upAfterHitState = false
  /\ option_map target_view
       (run [Frame (1200 + 1) None 0 0] upAfterHitState)
     = Some (Up, 1%Z, 1%Z)
  /\ option_map target_view
       (run [TogglePause; Frame 5000 None 0 0; TogglePause;
             Frame (5000 + 1) None 0 0] upAfterHitState)
     = Some (Retreating, 1%Z, 0%Z)
  /\ ~ pause_freezes_timers upAfterHitState 1200 5000 1
  /\ option_map target_view
       (run [TogglePause; PointerDown (tap true) 3000 0] upAfterHitState)
     = Some (Retreating, 2%Z, 2%Z).
Proof.
  split; [exact upAfterHitState_reachable|].
  split; [vm_compute; reflexivity|].
  split; [vm_compute; reflexivity|].
  split; [vm_compute; reflexivity|].
  split; [vm_compute; reflexivity|].
  split; [unfold pause_freezes_timers; vm_compute; discriminate|].
  vm_compute; reflexivity.
Qed.

Lemma set_reticle_forget (s : State) :
  set_reticle (reticle_visible s) (reticle_position s) (reticle_quaternion s)
    (forget_reticle s) = s.
Proof. destruct s; reflexivity. Qed.

Lemma forget_set_reticle b p q (s : State) :
  forget_reticle (set_reticle b p q s) = forget_reticle s.
Proof. reflexivity. Qed.

(** [updateMole] neither reads nor writes the reticle. *)
Section SetReticle.

Variables (b : bool) (p : Vector3) (q : Quaternion).

Lemma popBlock_set_reticle (nowMs u : Q) (s : State) :
  popBlock nowMs u (set_reticle b p q s)
  = option_map (set_reticle b p q) (popBlock nowMs u s).
Proof.
  unfold popBlock.
  change (popDue nowMs (set_reticle b p q s)) with (popDue nowMs s).
  change (holes (set_reticle b p q s)) with (holes s).
  destruct (popDue nowMs s); [|reflexivity].
  destruct (index (holes s) _); reflexivity.
Qed.

Lemma animBlock_set_reticle (nowMs u : Q) (s : State) :
  animBlock nowMs u (set_reticle b p q s)
  = option_map (set_reticle b p q) (animBlock nowMs u s).
Proof.
  unfold animBlock.
  change (mole_visible (set_reticle b p q s)) with (mole_visible s).
  change (mole_anim (set_reticle b p q s)) with (mole_anim s).
  change (holes (set_reticle b p q s)) with (holes s).
  change (activeHoleIndex (set_reticle b p q s)) with (activeHoleIndex s).
  destruct (mole_visible s); [|reflexivity].
  destruct (mole_anim s) as [a|]; [|reflexivity].
  destruct (index (holes s) (activeHoleIndex s)); [|reflexivity].
  destruct (Qle_bool 1 _); [destruct (kind a)|]; reflexivity.
Qed.

Lemma hideBlock_set_reticle (nowMs : Q) (s : State) :
  hideBlock nowMs (set_reticle b p q s)
  = set_reticle b p q (hideBlock nowMs s).
Proof.
  unfold hideBlock.
  change (hideDue nowMs (set_reticle b p q s)) with (hideDue nowMs s).
  destruct (hideDue nowMs s); reflexivity.
Qed.

Lemma updateMole_set_reticle (nowMs uPop uNext : Q) (s : State) :
  updateMole nowMs uPop uNext (set_reticle b p q s)
  = option_map (set_reticle b p q) (updateMole nowMs uPop uNext s).
Proof.
  unfold updateMole. rewrite popBlock_set_reticle.
  destruct (popBlock nowMs uPop s) as [s1|]; [|reflexivity]. cbn.
  rewrite animBlock_set_reticle.
  destruct (animBlock nowMs uNext s1) as [s2|]; [|reflexivity]. cbn.
  rewrite hideBlock_set_reticle. reflexivity.
Qed.

End SetReticle.

(** Two states that differ in the reticle only are taken by a frame to two
    states that differ in the reticle only. *)
Lemma onXRFrame_forget (time : Q) pose (uPop uNext : Q) (x y : State) :
  forget_reticle x = forget_reticle y ->
  option_map forget_reticle (onXRFrame time pose uPop uNext x)
  = option_map forget_reticle (onXRFrame time pose uPop uNext y).
Proof.
  intros H. unfold onXRFrame.
  destruct (updateReticle_shape pose x) as (bx & px & qx & Ex).
  destruct (updateReticle_shape pose y) as (by' & py & qy & Ey).
  rewrite Ex, Ey.
  rewrite <- (set_reticle_forget x), <- (set_reticle_forget y), H.
  generalize (forget_reticle y). intros z. cbn.
  destruct (negb (paused z) && placed z).
  - change (set_reticle bx px qx _) with (set_reticle bx px qx z).
    change (set_reticle by' py qy _) with (set_reticle by' py qy z).
    rewrite !updateMole_set_reticle.
    destruct (updateMole time uPop uNext z); reflexivity.
  - reflexivity.
Qed.

Lemma paused_frames_forget (evs : list Event) (s : State) :
  paused s = true -> forallb is_frame evs = true ->
  exists s', run evs s = Some s' /\ paused s' = true
             /\ forget_reticle s' = forget_reticle s.
Proof.
  revert s. induction evs as [|ev evs IH]; cbn; intros s P Hf; [eauto|].
  apply andb_true_iff in Hf. destruct Hf as [Hf Hfs].
  destruct ev; try discriminate. cbn. unfold onXRFrame.
  destruct (updateReticle_shape pose s) as (b & p & q & E).
  rewrite E. cbn. rewrite P. cbn.
  destruct (IH (set_reticle b p q s) P Hfs) as (s' & R & P' & F').
  exists s'. split; [exact R|]. split; [exact P'|]. exact F'.
Qed.

Lemma run_app (evs1 evs2 : list Event) (s : State) :
  run (evs1 ++ evs2) s
  = match run evs1 s with
    | Some s' => run evs2 s'
    | None => None
    end.
Proof.
  revert s. induction evs1 as [|ev evs1 IH]; cbn; intros s; [reflexivity|].
  destruct (step ev s); [apply IH | reflexivity].
Qed.

(** A frame never throws while the target is Up. *)
Lemma up_frame_total (time : Q) pose (uPop uNext : Q) (s : State) :
  moleState s = up -> mole_anim s = None ->
  exists s1, step (Frame time pose uPop uNext) s = Some s1.
Proof.
  intros M A. cbn. unfold onXRFrame.
  destruct (updateReticle_shape pose s) as (b & p & q & E). rewrite E.
  destruct (negb (paused (set_reticle b p q s))
            && placed (set_reticle b p q s)); [|eauto].
  unfold updateMole.
  rewrite popBlock_not_due by (apply popDue_up; exact M).
  unfold animBlock. cbn [mole_anim set_reticle]. rewrite A.
  destruct (mole_visible _); eauto.
Qed.

(** C8, amended.  While the session is paused a frame changes nothing but
    the reticle, so frames cause no state transition of the target (taps
    are not gated by the pause).  The timers are not frozen: they are
    timestamps compared with the time of the frame, so pausing, letting
    frames pass and resuming changes nothing (but the reticle) of what the
    next frame does; in particular, if the target is Up, the first frame
    after the resume whose time is more than [UP_DURATION] after [upSince]
    resets the streak, however long the session was paused. *)
Theorem C8_pause_skips_frames_only (s : State) (frames : list Event)
    (time : Q) (pose : option (Vector3 * Quaternion)) (uPop uNext : Q) :
  forallb is_frame frames = true ->
  (paused s = true ->
     onXRFrame time pose uPop uNext s = Some (updateReticle pose s)
     /\ target_view (updateReticle pose s) = target_view s)
  /\ (forall e now u,
        onPointerDown e now u (set_paused (negb (paused s)) s)
        = set_paused (negb (paused s)) (onPointerDown e now u s))
  /\ (paused s = false ->
        option_map forget_reticle
          (run (TogglePause :: frames
                ++ [TogglePause; Frame time pose uPop uNext]) s)
        = option_map forget_reticle (run [Frame time pose uPop uNext] s))
  /\ (paused s = false -> reachable s -> phase s = Up ->
      UP_DURATION < time - upSince s ->
        exists s',
          run (TogglePause :: frames
               ++ [TogglePause; Frame time pose uPop uNext]) s = Some s'
          /\ streak s' = 0%Z /\ phase s' = Retreating).
Proof.
  intros Hf.
  assert (Hcomm : paused s = false ->
            option_map forget_reticle
              (run (TogglePause :: frames
                    ++ [TogglePause; Frame time pose uPop uNext]) s)
            = option_map forget_reticle
                (run [Frame time pose uPop uNext] s)).
  { intros P. cbn [run step]. rewrite run_app.
    assert (P1 : paused (togglePause s) = true)
      by (unfold togglePause; cbn; rewrite P; reflexivity).
    destruct (paused_frames_forget frames (togglePause s) P1 Hf)
      as (s2 & R & P2 & F2).
    rewrite R. cbn [run step].
    assert (F3 : forget_reticle (togglePause s2) = forget_reticle s).
    { transitivity (set_paused false (forget_reticle s2)).
      - unfold togglePause. rewrite P2. reflexivity.
      - rewrite F2. unfold togglePause. cbn. rewrite P.
        destruct s; cbn in *; subst; reflexivity. }
    pose proof (onXRFrame_forget time pose uPop uNext _ _ F3) as H.
    destruct (onXRFrame time pose uPop uNext (togglePause s2));
      destruct (onXRFrame time pose uPop uNext s); cbn in *; congruence. }
  split; [|split; [|split; [exact Hcomm|]]].
  - intros P. unfold onXRFrame.
    destruct (updateReticle_shape pose s) as (b & p & q & E).
    rewrite E. cbn. rewrite P. cbn. split; reflexivity.
  - intros e now u. unfold onPointerDown, whackMole. cbn.
    destruct (placed s); cbn;
      [destruct (hit e && is_up (moleState s)); cbn;
         [destruct (is_up (moleState s))|]
      |destruct (reticle_visible s)]; reflexivity.
  - intros P R Hup Hlate.
    pose proof (reachable_Inv s R) as I.
    apply phase_Up_iff in Hup. destruct Hup as [M A].
    specialize (Hcomm P).
    destruct (up_frame_total time pose uPop uNext s M A) as (s1 & E1).
    assert (W : waiting s) by (split; [exact M | rewrite A; exact Logic.I]).
    destruct (waiting_frame (Frame time pose uPop uNext) s s1 I eq_refl W E1)
      as (_ & Hm & _ & Hnext).
    assert (Hmiss : missFires (Frame time pose uPop uNext) s = true).
    { rewrite Hm, P. cbn. apply negb_true_iff, Qle_bool_false. exact Hlate. }
    rewrite Hmiss in Hnext. destruct Hnext as (M1 & a & A1 & K).
    pose proof (frame_streak (Frame time pose uPop uNext) s s1 eq_refl E1)
      as Hs.
    rewrite Hmiss in Hs.
    assert (Er1 : run [Frame time pose uPop uNext] s = Some s1)
      by (cbn [run]; rewrite E1; reflexivity).
    rewrite Er1 in Hcomm.
    destruct (run (TogglePause :: frames
                   ++ [TogglePause; Frame time pose uPop uNext]) s)
      as [s'|]; [|discriminate Hcomm].
    apply Some_eq in Hcomm. rename Hcomm into Hfr.
    exists s'. split; [reflexivity|].
    assert (Hst : streak s' = streak s1).
    { change (streak (forget_reticle s') = streak (forget_reticle s1)).
      rewrite Hfr. reflexivity. }
    assert (Hph : phase s' = phase s1).
    { change (phase (forget_reticle s') = phase (forget_reticle s1)).
      rewrite Hfr. reflexivity. }
    split; [congruence|]. rewrite Hph. unfold phase. rewrite M1, A1, K.
    reflexivity.
Qed.

Lemma C8_pause_skips_frames_only_witness :
  exists s',
    run (TogglePause :: [Frame 5000 None 0 0]
         ++ [TogglePause; Frame 5001 None 0 0]) upAfterHitState = Some s'
    /\ streak s' = 0%Z /\ phase s' = Retreating.
Proof.
  destruct (C8_pause_skips_frames_only upAfterHitState
              [Frame 5000 None 0 0] 5001 None 0 0 eq_refl)
    as (_ & _ & _ & H).
  apply H.
  - vm_compute. reflexivity.
  - exact upAfterHitState_reachable.
  - vm_compute. reflexivity.
  - vm_compute. reflexivity.
Defined.

(** ** Idempotence of [updateMole] at one timestamp *)

Lemma same_state_refl (s : State) : same_state s s.
Proof. split; [unfold veq; repeat split; reflexivity | reflexivity]. Qed.

Lemma same_state_set_y (y : Q) (s : State) :
  y == vy (mole_position s) ->
  same_state (set_mole_position (set_y y (mole_position s)) s) s.
Proof.
  intros H. split; [|reflexivity].
  unfold veq; cbn. split; [reflexivity|]. split; [exact H | reflexivity].
Qed.

(** In a settled state [updateMole] changes nothing. *)
Lemma settled_noop (nowMs uPop uNext : Q) (s : State) :
  settled nowMs s ->
  exists s', updateMole nowMs uPop uNext s = Some s' /\ same_state s' s.
Proof.
  intros (HP & HH & HA). unfold updateMole.
  rewrite (popBlock_not_due _ _ _ HP). unfold animBlock.
  destruct (mole_visible s) eqn:V.
  - destruct (mole_anim s) as [a|] eqn:A.
    + destruct (HA eq_refl a eq_refl) as (hole & Hi & Ht & Hy).
      rewrite Hi, Math_min_one_ge.
      replace (Qle_bool 1 ((nowMs - t0 a) / dur a)) with false
        by (symmetry; apply Qle_bool_false; exact Ht).
      eexists. split; [reflexivity|].
      unfold hideBlock.
      change (hideDue nowMs (set_mole_position ?p s)) with (hideDue nowMs s).
      rewrite HH. apply same_state_set_y. exact Hy.
    + eexists. split; [reflexivity|].
      unfold hideBlock. rewrite HH. apply same_state_refl.
  - eexists. split; [reflexivity|].
    unfold hideBlock. rewrite HH. apply same_state_refl.
Qed.

Lemma zero_div_lt_1 (t d : Q) : 0 < d -> (t - t) / d < 1.
Proof.
  intros Hd. setoid_replace ((t - t) / d) with 0 by (field; lra). lra.
Qed.

Lemma Math_min_start (t d : Q) : 0 < d -> Math_min 1 ((t - t) / d) == 0.
Proof.
  intros Hd. unfold Math_min.
  replace (Qle_bool 1 ((t - t) / d)) with false
    by (symmetry; apply Qle_bool_false, zero_div_lt_1, Hd).
  field. lra.
Qed.

(** The height at which a hide animation starts is the height at which
    the pop animation ended. *)
Lemma animHeight_hide_start (nowMs : Q) (hole : Vector3) :
  animHeight nowMs (mkAnim hide nowMs 160 0.16 (-0.02)) hole
  == vy hole + 0.16.
Proof.
  unfold animHeight. cbn [from to t0 dur]. unfold easeOut.
  rewrite (Math_min_start nowMs 160) by lra. ring.
Qed.

(** After the timeout block has fired, the state is settled as soon as the
    mole is visible at the height where the hide animation starts. *)
Lemma settled_after_hide (nowMs : Q) (s : State) (hole : Vector3) :
  moleState s = up ->
  index (holes s) (activeHoleIndex s) = Some hole ->
  vy (mole_position s) == vy hole + 0.16 ->
  settled nowMs
    (set_streak 0
       (set_mole_anim (Some (mkAnim hide nowMs 160 0.16 (-0.02))) s)).
Proof.
  intros M Hi Hy. split; [|split].
  - apply popDue_up. exact M.
  - unfold hideDue. cbn. apply andb_false_r.
  - cbn. intros _ a Ha. inversion Ha; subst a. exists hole.
    split; [exact Hi|]. cbn [t0 dur].
    split; [apply zero_div_lt_1; lra|].
    rewrite animHeight_hide_start, Hy. reflexivity.
Qed.
Lemma Math_min_end (x : Q) : Qle_bool 1 x = true -> Math_min 1 x = 1.
Proof. unfold Math_min. intros ->. reflexivity. Qed.

(** Every call of [updateMole] leaves a state that is settled for its
    timestamp. *)
Lemma updateMole_settles (nowMs uPop uNext : Q) (s s' : State) :
  Inv s -> random_ok uNext = true ->
  updateMole nowMs uPop uNext s = Some s' -> settled nowMs s'.
Proof.
  intros I Hu. unfold updateMole.
  destruct (popBlock nowMs uPop s) as [s1|] eqn:E1; [|discriminate].
  destruct (animBlock nowMs uNext s1) as [s2|] eqn:E2; [|discriminate].
  intro H. apply Some_eq in H. subst s'.
  destruct (popDue nowMs s) eqn:D.
  - (* the mole pops *)
    destruct (popBlock_fires nowMs uPop s s1 D E1)
      as (M & V & A & U & hole & Hi).
    unfold animBlock in E2. rewrite V, A, Hi, Math_min_one_ge in E2.
    cbn [kind t0 dur from to] in E2.
    replace (Qle_bool 1 ((nowMs - nowMs) / 180)) with false in E2
      by (symmetry; apply Qle_bool_false, zero_div_lt_1; lra).
    apply Some_eq in E2. subst s2.
    unfold hideBlock.
    rewrite (hideDue_anim nowMs _ (mkAnim pop nowMs 180 (-0.02) 0.16))
      by (cbn; exact A).
    split; [apply popDue_up; exact M|].
    split; [apply (hideDue_anim nowMs _ (mkAnim pop nowMs 180 (-0.02) 0.16));
            cbn; exact A|].
    cbn. intros _ a Ha. rewrite A in Ha. apply Some_eq in Ha. subst a.
    exists hole. split; [exact Hi|]. cbn [t0 dur].
    split; [apply zero_div_lt_1; lra | reflexivity].
  - (* no pop *)
    rewrite (popBlock_not_due _ _ _ D) in E1. apply Some_eq in E1. subst s1.
    unfold animBlock in E2.
    destruct (mole_visible s) eqn:V.
    + destruct (mole_anim s) as [a|] eqn:A.
      * destruct (index_Some (holes s) _ (inv_visible_index s I V))
          as [hole Hi].
        pose proof (inv_anim s I a A) as Ha. unfold anim_ok in Ha.
        rewrite Hi, Math_min_one_ge in E2.
        destruct (Qle_bool 1 ((nowMs - t0 a) / dur a)) eqn:G.
        -- destruct (kind a) eqn:K; apply Some_eq in E2; subst s2.
           ++ (* the pop animation ends *)
              unfold hideBlock.
              destruct (hideDue nowMs _) eqn:HD.
              ** apply hideDue_spec in HD. destruct HD as (M & _ & _).
                 apply (settled_after_hide nowMs _ hole); [exact M|exact Hi|].
                 cbn. rewrite (Math_min_end _ G), Ha. cbn [from to].
                 unfold easeOut. ring.
              ** split; [exact D|]. split; [exact HD|].
                 cbn. intros _ a' Ha'. discriminate Ha'.
           ++ (* the hide animation ends *)
              rewrite hideBlock_down by reflexivity.
              split; [|split; [reflexivity | cbn; discriminate]].
              unfold popDue. cbn.
              replace (Qle_bool _ nowMs) with false; [reflexivity|].
              symmetry. apply Qle_bool_false.
              pose proof (rand_interval uNext Hu) as [R _].
              assert (Hmin : 0 < POP_INTERVAL_MIN) by reflexivity. lra.
           ++ (* the bonk animation ends *)
              rewrite hideBlock_down by reflexivity.
              split; [|split; [reflexivity | cbn; discriminate]].
              unfold popDue. cbn.
              replace (Qle_bool _ nowMs) with false; [reflexivity|].
              symmetry. apply Qle_bool_false.
              pose proof (rand_interval uNext Hu) as [R _].
              assert (Hmin : 0 < POP_INTERVAL_MIN) by reflexivity. lra.
        -- (* the animation goes on *)
           apply Some_eq in E2. subst s2.
           unfold hideBlock.
           rewrite (hideDue_anim nowMs _ a) by (cbn; exact A).
           split; [exact D|].
           split; [apply (hideDue_anim nowMs _ a); cbn; exact A|].
           cbn. intros _ a' Ha'. rewrite A in Ha'. apply Some_eq in Ha'.
           subst a'. exists hole. split; [exact Hi|].
           split; [apply Qle_bool_false; exact G | reflexivity].
      * apply Some_eq in E2. subst s2. unfold hideBlock.
        destruct (hideDue nowMs s) eqn:HD.
        -- apply hideDue_spec in HD. destruct HD as (M & _ & _).
           destruct (index_Some (holes s) _ (inv_visible_index s I V))
             as [hole Hi].
           apply (settled_after_hide nowMs s hole); [exact M|exact Hi|].
           apply (inv_up_y s I M A hole Hi).
        -- split; [exact D|]. split; [exact HD|].
           intros _ a' Ha'. congruence.
    + apply Some_eq in E2. subst s2. unfold hideBlock.
      destruct (hideDue nowMs s) eqn:HD.
      * apply hideDue_spec in HD. destruct HD as (M & _ & _).
        rewrite (inv_up_visible s I M) in V. discriminate V.
      * split; [exact D|]. split; [exact HD|]. intros V'. congruence.
Qed.

(** C9. In every reachable state in which [updateMole] is called (the grid
    is placed), and for every timestamp: after a first call of [updateMole],
    no pop and no timeout is due at the same timestamp, and a second call
    with that timestamp, whatever [Math.random()] would return, leaves the
    state the same; so neither the transitions, nor the streak reset, nor
    the pop scheduling are applied a second time. *)
Theorem C9_updateMole_idempotent (s : State) (nowMs uPop uNext uPop' uNext' : Q) :
  reachable s -> placed s = true ->
  random_ok uPop = true -> random_ok uNext = true ->
  exists s1,
    updateMole nowMs uPop uNext s = Some s1
    /\ popDue nowMs s1 = false
    /\ hideDue nowMs s1 = false
    /\ exists s2,
         updateMole nowMs uPop' uNext' s1 = Some s2
         /\ same_state s2 s1
         /\ phase s2 = phase s1 /\ mole_visible s2 = mole_visible s1
         /\ score s2 = score s1 /\ streak s2 = streak s1
         /\ nextPopAt s2 = nextPopAt s1.
Proof.
  intros R P Hu Hu'. pose proof (reachable_Inv s R) as I.
  destruct (updateMole_Inv nowMs uPop uNext s I P Hu) as (s1 & E1 & _).
  pose proof (updateMole_settles nowMs uPop uNext s s1 I Hu' E1) as St.
  exists s1. split; [exact E1|].
  split; [apply St|]. split; [apply St|].
  destruct (settled_noop nowMs uPop' uNext' s1 St) as (s2 & E2 & Hs).
  exists s2. split; [exact E2|]. split; [exact Hs|].
  destruct Hs as [_ Hs].
  repeat split.
  - change (phase (set_mole_position zero3 s2)
            = phase (set_mole_position zero3 s1)). rewrite Hs. reflexivity.
  - change (mole_visible (set_mole_position zero3 s2)
            = mole_visible (set_mole_position zero3 s1)).
    rewrite Hs. reflexivity.
  - change (score (set_mole_position zero3 s2)
            = score (set_mole_position zero3 s1)). rewrite Hs. reflexivity.
  - change (streak (set_mole_position zero3 s2)
            = streak (set_mole_position zero3 s1)). rewrite Hs. reflexivity.
  - change (nextPopAt (set_mole_position zero3 s2)
            = nextPopAt (set_mole_position zero3 s1)).
    rewrite Hs. reflexivity.
Qed.

(** The timeout fires in the first call at 1601; the second call at 1601
    changes nothing. *)
Lemma C9_updateMole_idempotent_witness :
  exists s1,
    updateMole 1601 0 0 upState = Some s1
    /\ phase s1 = Retreating /\ streak s1 = 0%Z
    /\ exists s2,
         updateMole 1601 (1 # 2) (1 # 2) s1 = Some s2 /\ same_state s2 s1.
Proof.
  destruct (C9_updateMole_idempotent upState 1601 0 0 (1 # 2) (1 # 2)
              upState_reachable eq_refl eq_refl eq_refl)
    as (s1 & E1 & _ & _ & s2 & E2 & Hs & _).
  exists s1. split; [exact E1|].
  assert (E : updateMole 1601 0 0 upState = Some hidingState)
    by (vm_compute; reflexivity).
  rewrite E in E1. inversion E1; subst s1.
  split; [vm_compute; reflexivity|]. split; [vm_compute; reflexivity|].
  exists s2. split; [exact E2 | exact Hs].
Defined.


(** ** Scenario A in IEEE doubles *)

(** With the identity quaternion and the anchor at the origin, the nine
    positions computed in binary64 arithmetic are exactly the nine points
    of [{-0.38, 0, 0.38}²]: no operation of [buildGrid] rounds there. *)
Lemma double_identity_grid :
  Double.gridPositions (Double.vec3 0 0 0) (Double.quat 0 0 0 1)
  = Double.squareOffsets.
Proof. vm_compute. reflexivity. Qed.

(** ** Idempotence of a whole frame *)

Lemma updateMole_keeps (nowMs uPop uNext : Q) (s s' : State) :
  updateMole nowMs uPop uNext s = Some s' ->
  hitTestSource s' = hitTestSource s
  /\ reticle_visible s' = reticle_visible s
  /\ reticle_position s' = reticle_position s
  /\ reticle_quaternion s' = reticle_quaternion s
  /\ placed s' = placed s /\ paused s' = paused s.
Proof.
  unfold updateMole, popBlock, animBlock, hideBlock.
  destruct (popDue nowMs s).
  - destruct (index (holes s) _) as [hole|]; [|discriminate]. cbn.
    destruct (index _ _) as [hole'|]; [|discriminate].
    destruct (Qle_bool 1 _); destruct (hideDue nowMs _);
      intro H; apply Some_eq in H; subst s'; cbn; auto 10.
  - destruct (mole_visible s); [destruct (mole_anim s) as [a|]|].
    + destruct (index _ _) as [hole|]; [|discriminate].
      destruct (Qle_bool 1 _); [destruct (kind a)|];
        destruct (hideDue nowMs _);
        intro H; apply Some_eq in H; subst s'; cbn; auto 10.
    + destruct (hideDue nowMs _);
        intro H; apply Some_eq in H; subst s'; cbn; auto 10.
    + destruct (hideDue nowMs _);
        intro H; apply Some_eq in H; subst s'; cbn; auto 10.
Qed.

(** [updateReticle] changes nothing in a state that already shows what it
    writes. *)
Lemma updateReticle_fixed pose (s s1 : State) :
  hitTestSource s1 = hitTestSource s ->
  reticle_visible s1 = reticle_visible (updateReticle pose s) ->
  reticle_position s1 = reticle_position (updateReticle pose s) ->
  reticle_quaternion s1 = reticle_quaternion (updateReticle pose s) ->
  updateReticle pose s1 = s1.
Proof.
  unfold updateReticle, set_reticle_visible. intros H.
  rewrite H.
  destruct s1 as [h rv rp rq gp gq pl pa ho mv mp mq ma ms ai np sc st us];
    cbn in *.
  destruct (hitTestSource s); [destruct pose as [[p q]|]|]; cbn;
    intros; subst; reflexivity.
Qed.

(** The same frame delivered twice: the second delivery, whatever
    [Math.random()] would return, leaves the state the same. *)
Lemma onXRFrame_idempotent (s : State) (time : Q)
    (pose : option (Vector3 * Quaternion)) (uPop uNext uPop' uNext' : Q) :
  reachable s -> random_ok uPop = true -> random_ok uNext = true ->
  exists s1,
    onXRFrame time pose uPop uNext s = Some s1
    /\ exists s2,
         onXRFrame time pose uPop' uNext' s1 = Some s2 /\ same_state s2 s1.
Proof.
  intros R Hu Hu'. pose proof (reachable_Inv s R) as I.
  pose proof (updateReticle_Inv pose s I) as Ir.
  unfold onXRFrame at 1.
  destruct (negb (paused (updateReticle pose s))
            && placed (updateReticle pose s)) eqn:G.
  - assert (Pl : placed (updateReticle pose s) = true)
      by (apply andb_true_iff in G; tauto).
    destruct (updateMole_Inv time uPop uNext _ Ir Pl Hu) as (s1 & E1 & _).
    exists s1. split; [exact E1|].
    destruct (updateMole_keeps _ _ _ _ _ E1) as (K1 & K2 & K3 & K4 & K5 & K6).
    assert (F : updateReticle pose s1 = s1).
    { apply (updateReticle_fixed pose s); try assumption.
      rewrite K1. destruct (updateReticle_shape pose s) as (b & p & q & E).
      rewrite E. reflexivity. }
    unfold onXRFrame. rewrite F, K5, K6, G.
    pose proof (updateMole_settles time uPop uNext _ s1 Ir Hu' E1) as St.
    destruct (settled_noop time uPop' uNext' s1 St) as (s2 & E2 & Hs).
    eauto.
  - exists (updateReticle pose s). split; [reflexivity|].
    assert (F : updateReticle pose (updateReticle pose s)
                = updateReticle pose s).
    { apply (updateReticle_fixed pose s); try reflexivity.
      destruct (updateReticle_shape pose s) as (b & p & q & E).
      rewrite E. reflexivity. }
    unfold onXRFrame. rewrite F, G.
    eexists. split; [reflexivity | apply same_state_refl].
Qed.

(** * Further properties of the handlers *)

(** ** Shape of the reachable states *)

(** Projections of assignments. *)
Ltac fields :=
  cbn [hitTestSource reticle_visible reticle_position reticle_quaternion
       gridRoot_position gridRoot_quaternion placed paused holes
       mole_visible mole_position mole_quaternion mole_anim moleState
       activeHoleIndex nextPopAt score streak upSince
       set_hitTestSource set_reticle set_reticle_visible
       set_gridRoot_position set_gridRoot_quaternion set_placed set_paused
       set_holes set_mole_visible set_mole_position set_mole_quaternion
       set_mole_anim set_moleState set_activeHoleIndex set_nextPopAt
       set_score set_streak set_upSince
       scheduleNextPop clearGrid buildGrid
       vx vy vz set_y kind t0 dur from to] in *.

Ltac shape_field :=
  fields; intros; try discriminate; try assumption; try reflexivity;
  try lia;
  try (match goal with
       | H : Some _ = Some ?a |- kind ?a <> _ =>
           inversion H; subst; cbn; discriminate
       | H : Some _ = Some ?a |- exists _, _ =>
           inversion H; subst; eauto
       end);
  eauto.

Lemma Shape_initial : Shape initial.
Proof. constructor; cbn; try discriminate; auto; lia. Qed.

Lemma popBlock_Shape (nowMs u : Q) (s s' : State) :
  Shape s -> popBlock nowMs u s = Some s' -> Shape s'.
Proof.
  intros [S1 S2 S3 S4 S5]. unfold popBlock.
  destruct (popDue nowMs s);
    [|intro H; apply Some_eq in H; subst; constructor; assumption].
  cbv zeta. set (i := Qfloor _).
  destruct (index (holes s) i) as [hole|] eqn:Hi; [|discriminate].
  intro H; apply Some_eq in H; subst s'.
  constructor; shape_field.
  assert (hole0 = hole) by congruence. subst hole0. auto.
Qed.

Lemma animBlock_Shape (nowMs u : Q) (s s' : State) :
  Shape s -> animBlock nowMs u s = Some s' -> Shape s'.
Proof.
  intros Sh. unfold animBlock.
  destruct (mole_visible s) eqn:V;
    [|intro H; apply Some_eq in H; subst; exact Sh].
  destruct (mole_anim s) as [a|] eqn:A;
    [|intro H; apply Some_eq in H; subst; exact Sh].
  destruct (index (holes s) (activeHoleIndex s)) as [hole|] eqn:Hi;
    [|discriminate].
  destruct Sh as [S1 S2 S3 S4 S5].
  destruct (S5 V hole Hi) as (Hx & Hz & Hq).
  destruct (Qle_bool 1 _); [destruct (kind a) eqn:K|];
    intro H; apply Some_eq in H; subst s';
    constructor; shape_field.
  destruct (S3 H H0) as (a' & Ha' & K'). congruence.
Qed.

Lemma hideBlock_Shape (nowMs : Q) (s : State) :
  Shape s -> Shape (hideBlock nowMs s).
Proof.
  intros Sh. unfold hideBlock.
  destruct (hideDue nowMs s) eqn:D; [|exact Sh].
  apply hideDue_spec in D. destruct D as (M & _ & _).
  destruct Sh as [S1 S2 S3 S4 S5].
  constructor; shape_field. congruence.
Qed.

Lemma updateMole_Shape (nowMs uPop uNext : Q) (s s' : State) :
  Shape s -> updateMole nowMs uPop uNext s = Some s' -> Shape s'.
Proof.
  intros Sh. unfold updateMole.
  destruct (popBlock nowMs uPop s) as [s1|] eqn:E1; [|discriminate].
  destruct (animBlock nowMs uNext s1) as [s2|] eqn:E2; [|discriminate].
  intro H; apply Some_eq in H; subst s'.
  apply hideBlock_Shape. apply (animBlock_Shape nowMs uNext s1); [|exact E2].
  apply (popBlock_Shape nowMs uPop s); assumption.
Qed.

Lemma updateReticle_Shape pose (s : State) :
  Shape s -> Shape (updateReticle pose s).
Proof.
  intros [S1 S2 S3 S4 S5].
  destruct (updateReticle_shape pose s) as (b & p & q & E). rewrite E.
  constructor; shape_field.
Qed.

Lemma step_Shape (ev : Event) (s s' : State) :
  Inv s -> Shape s -> step ev s = Some s' -> Shape s'.
Proof.
  intros I Sh. destruct ev; cbn [step].
  - intro H; apply Some_eq in H; subst s'.
    destruct Sh as [S1 S2 S3 S4 S5]. unfold sessionStart.
    constructor; shape_field.
  - intro H; apply Some_eq in H; subst s'.
    destruct Sh as [S1 S2 S3 S4 S5]. unfold sessionEnd.
    constructor; shape_field.
  - unfold onXRFrame.
    pose proof (updateReticle_Shape pose s Sh) as Sr.
    destruct (_ && _).
    + apply updateMole_Shape. exact Sr.
    + intro H; apply Some_eq in H; subst s'. exact Sr.
  - intro H; apply Some_eq in H; subst s'. unfold onPointerDown.
    destruct (placed s) eqn:P; cbn [negb].
    + destruct (hit e && is_up (moleState s)); [|exact Sh].
      unfold whackMole. destruct (is_up (moleState s)); [|exact Sh].
      destruct Sh as [S1 S2 S3 S4 S5]. constructor; shape_field.
    + assert (V : mole_visible s = false).
      { destruct (mole_visible s) eqn:V; [|reflexivity].
        rewrite (inv_visible_placed s I V) in P. discriminate. }
      assert (M : moleState s = down).
      { destruct (moleState s) eqn:M; [|reflexivity].
        rewrite (inv_up_visible s I M) in V. discriminate. }
      destruct Sh as [S1 S2 S3 S4 S5].
      destruct (reticle_visible s); constructor; shape_field; congruence.
  - intro H; apply Some_eq in H; subst s'. unfold resetGame.
    constructor; shape_field.
  - intro H; apply Some_eq in H; subst s'. unfold togglePause.
    destruct Sh as [S1 S2 S3 S4 S5]. constructor; shape_field.
Qed.

Lemma reachable_Shape (s : State) : reachable s -> Shape s.
Proof.
  induction 1 as [|ev s s' R IH Hev Hstep].
  - apply Shape_initial.
  - apply (step_Shape ev s s' (reachable_Inv s R) IH Hstep).
Qed.

(** X1. No run of events throws: whenever every [Math.random()] lies in
    [0, 1), [holes[activeHoleIndex]] is defined each time [updateMole]
    reads it, so every handler of the run returns. *)
Theorem X1_run_never_throws (evs : list Event) :
  forallb event_ok evs = true ->
  exists s, run evs initial = Some s /\ reachable s.
Proof.
  intros Hok.
  destruct (run_total evs initial Inv_initial Hok) as (s & Hr & _).
  exists s. split; [exact Hr|].
  apply (reachable_of_run evs); assumption.
Qed.

Lemma X1_run_never_throws_witness :
  exists s, run toUpAfterHit initial = Some s /\ reachable s.
Proof. apply (X1_run_never_throws toUpAfterHit). reflexivity. Defined.

(** X2. In every reachable state the counters are ordered:
    [0 <= streak <= score]. *)
Theorem X2_streak_at_most_score (s : State) :
  reachable s -> (0 <= streak s <= score s)%Z.
Proof. intros R. apply (shape_counters s (reachable_Shape s R)). Qed.

Lemma X2_streak_at_most_score_witness :
  (0 <= streak upAfterHitState <= score upAfterHitState)%Z.
Proof.
  apply (X2_streak_at_most_score upAfterHitState).
  exact upAfterHitState_reachable.
Defined.

(** X3. What one event can do to the counters, in any state: a tap leaves
    them or adds 1 to both; a frame leaves them or puts the streak to 0; the
    reset button puts both to 0; the other events leave them.  So the score
    never decreases but by a reset. *)
Theorem X3_counters_per_event (ev : Event) (s s' : State) :
  step ev s = Some s' ->
  match ev with
  | PointerDown _ _ _ =>
      (score s' = score s /\ streak s' = streak s)
      \/ (score s' = (score s + 1)%Z /\ streak s' = (streak s + 1)%Z)
  | Frame _ _ _ _ =>
      score s' = score s /\ (streak s' = streak s \/ streak s' = 0%Z)
  | Reset => score s' = 0%Z /\ streak s' = 0%Z
  | _ => score s' = score s /\ streak s' = streak s
  end.
Proof.
  intros Hstep. destruct ev; cbn [step] in Hstep.
  - apply Some_eq in Hstep; subst s'. split; reflexivity.
  - apply Some_eq in Hstep; subst s'. split; reflexivity.
  - split; [apply (onXRFrame_score _ _ _ _ _ _ Hstep)|].
    rewrite (frame_streak (Frame time pose uPop uNext) s s' eq_refl Hstep).
    destruct (missFires _ s); auto.
  - apply Some_eq in Hstep; subst s'. unfold onPointerDown, whackMole.
    destruct (placed s); cbn [negb].
    + destruct (hit e && is_up (moleState s)); [|auto].
      destruct (is_up (moleState s)); [right|left]; split; reflexivity.
    + destruct (reticle_visible s); left; split; reflexivity.
  - apply Some_eq in Hstep; subst s'. split; reflexivity.
  - apply Some_eq in Hstep; subst s'. split; reflexivity.
Qed.

Lemma X3_counters_per_event_witness :
  score (onPointerDown (tap true) 950 0 upState) = score upState
  /\ streak (onPointerDown (tap true) 950 0 upState) = streak upState
  \/ score (onPointerDown (tap true) 950 0 upState) = (score upState + 1)%Z
     /\ streak (onPointerDown (tap true) 950 0 upState)
        = (streak upState + 1)%Z.
Proof.
  apply (X3_counters_per_event (PointerDown (tap true) 950 0) upState).
  reflexivity.
Defined.

(** X4. In every reachable state the grid is there exactly while it is
    placed: [holes] has 9 elements when [placed] is true and is empty when
    [placed] is false. *)
Theorem X4_holes_iff_placed (s : State) :
  reachable s ->
  (placed s = true -> length (holes s) = 9%nat)
  /\ (placed s = false -> holes s = []).
Proof.
  intros R. split.
  - apply (inv_placed_holes s (reachable_Inv s R)).
  - apply (shape_unplaced s (reachable_Shape s R)).
Qed.

Lemma X4_holes_iff_placed_witness :
  (placed upState = true -> length (holes upState) = 9%nat)
  /\ (placed upState = false -> holes upState = []).
Proof. apply (X4_holes_iff_placed upState). exact upState_reachable. Defined.

(** X5. In every reachable state the mole is hidden exactly when the target
    is Down: a mole that is ['up'] is visible, a visible mole that is
    ['down'] is playing the bonk animation, and a mole that is ['up'] never
    plays it. *)
Theorem X5_hidden_iff_Down (s : State) :
  reachable s ->
  (mole_visible s = false <-> phase s = Down)
  /\ (mole_visible s = true -> moleState s = down ->
      exists a, mole_anim s = Some a /\ kind a = bonk)
  /\ (moleState s = up ->
      mole_visible s = true
      /\ forall a, mole_anim s = Some a -> kind a <> bonk).
Proof.
  intros R. pose proof (reachable_Inv s R) as I.
  destruct (reachable_Shape s R) as [_ _ S3 S4 _].
  split; [|split].
  - unfold phase. split.
    + intros V. destruct (moleState s) eqn:M.
      * rewrite (inv_up_visible s I M) in V. discriminate.
      * rewrite V. reflexivity.
    + destruct (moleState s) eqn:M.
      * destruct (mole_anim s) as [a|]; [destruct (kind a)|]; discriminate.
      * destruct (mole_visible s) eqn:V; [|reflexivity].
        destruct (S3 eq_refl eq_refl) as (a & A & _). rewrite A.
        discriminate.
  - exact S3.
  - intros M. split; [apply (inv_up_visible s I M) | apply (S4 M)].
Qed.

Lemma X5_hidden_iff_Down_witness :
  (mole_visible downState = false <-> phase downState = Down).
Proof.
  apply (X5_hidden_iff_Down downState). exact downState_reachable.
Defined.

(** X6. In every reachable state a visible mole stands on the active hole:
    [activeHoleIndex] designates a hole, the mole has the [x] and [z] of
    that hole and the orientation of the grid. *)
Theorem X6_mole_on_active_hole (s : State) :
  reachable s -> mole_visible s = true ->
  exists hole,
    index (holes s) (activeHoleIndex s) = Some hole
    /\ vx (mole_position s) = vx hole
    /\ vz (mole_position s) = vz hole
    /\ mole_quaternion s = gridRoot_quaternion s.
Proof.
  intros R V. pose proof (reachable_Inv s R) as I.
  destruct (index_Some (holes s) _ (inv_visible_index s I V)) as [hole Hi].
  exists hole. split; [exact Hi|].
  apply (shape_on_hole s (reachable_Shape s R) V hole Hi).
Qed.

Lemma X6_mole_on_active_hole_witness :
  exists hole,
    index (holes upState) (activeHoleIndex upState) = Some hole
    /\ vx (mole_position upState) = vx hole
    /\ vz (mole_position upState) = vz hole
    /\ mole_quaternion upState = gridRoot_quaternion upState.
Proof.
  apply (X6_mole_on_active_hole upState upState_reachable).
  vm_compute. reflexivity.
Defined.

(** ** Easing and the height of the mole *)

Lemma square_nonneg (x : Q) : 0 <= x * x.
Proof.
  destruct (Qlt_le_dec x 0) as [H|H].
  - setoid_replace (x * x) with ((- x) * (- x)) by ring.
    apply Qmult_le_0_compat; lra.
  - apply Qmult_le_0_compat; exact H.
Qed.

Lemma cube_monotone (a b : Q) : a <= b -> a ^ 3 <= b ^ 3.
Proof.
  intros H.
  pose proof (square_nonneg (a + (1 # 2) * b)) as H1.
  pose proof (square_nonneg b) as H2.
  set (p := (a + (1 # 2) * b) * (a + (1 # 2) * b)) in *.
  set (q := b * b) in *.
  assert (E : b ^ 3 - a ^ 3 == (b - a) * (p + (3 # 4) * q))
    by (unfold p, q; ring).
  assert (H3 : 0 <= (b - a) * (p + (3 # 4) * q)).
  { apply Qmult_le_0_compat; lra. }
  rewrite <- E in H3. lra.
Qed.

Lemma easeOut_monotone (x y : Q) : x <= y -> easeOut x <= easeOut y.
Proof.
  intros Hxy. unfold easeOut.
  assert (Hc := cube_monotone (1 - y) (1 - x) ltac:(lra)). lra.
Qed.

Lemma easeOut_unit (t : Q) :
  (0 <= t -> 0 <= easeOut t) /\ (t <= 1 -> easeOut t <= 1).
Proof.
  split; intros H.
  - apply Qle_trans with (easeOut 0); [rewrite easeOut_0; lra|].
    apply easeOut_monotone; exact H.
  - apply Qle_trans with (easeOut 1); [apply easeOut_monotone; exact H|].
    rewrite easeOut_1. lra.
Qed.

(** X7. [easeOut] is increasing, sends 0 to 0 and 1 to 1, and so maps the
    progress of an animation, between 0 and 1, to a value between 0 and 1:
    no overshoot. *)
Theorem X7_easeOut_increasing (t1 t2 : Q) :
  t1 <= t2 ->
  easeOut t1 <= easeOut t2
  /\ easeOut 0 == 0 /\ easeOut 1 == 1
  /\ (0 <= t1 -> t2 <= 1 ->
      0 <= easeOut t1 /\ easeOut t2 <= 1).
Proof.
  intros H.
  split; [apply easeOut_monotone; exact H|].
  split; [reflexivity|]. split; [reflexivity|].
  intros H0 H1. split; [apply easeOut_unit | apply easeOut_unit]; assumption.
Qed.

Lemma X7_easeOut_increasing_witness :
  easeOut (1 # 4) <= easeOut (1 # 2).
Proof.
  destruct (X7_easeOut_increasing (1 # 4) (1 # 2)) as [H _].
  - unfold Qle; cbn; lia.
  - exact H.
Defined.

Lemma div_monotone (x y d : Q) : 0 < d -> x <= y -> x / d <= y / d.
Proof.
  intros Hd H. unfold Qdiv. apply Qmult_le_compat_r; [exact H|].
  apply Qlt_le_weak, Qinv_lt_0_compat, Hd.
Qed.

Lemma Math_min_le (x y : Q) : x <= y -> Math_min 1 x <= Math_min 1 y.
Proof.
  intros H.
  destruct (Math_min_one x) as [[Hx Ex]|[Hx Ex]];
    destruct (Math_min_one y) as [[Hy Ey]|[Hy Ey]];
    rewrite Ex, Ey; lra.
Qed.

Lemma progress_range (nowMs start d : Q) :
  0 < d -> start <= nowMs ->
  0 <= Math_min 1 ((nowMs - start) / d) <= 1.
Proof.
  intros Hd H.
  assert (H0 : 0 <= (nowMs - start) / d).
  { apply Qle_shift_div_l; [exact Hd | lra]. }
  destruct (Math_min_one ((nowMs - start) / d)) as [[Hx Ex]|[Hx Ex]];
    rewrite Ex; lra.
Qed.

Lemma anim_ok_dur (a : Anim) : anim_ok a -> 0 < dur a.
Proof.
  unfold anim_ok. destruct (kind a); intros ->; reflexivity.
Qed.

(** The height that [animBlock] gives the mole. *)
Lemma animBlock_height (nowMs u : Q) (s s' : State) (a : Anim)
    (hole : Vector3) :
  mole_visible s = true -> mole_anim s = Some a ->
  index (holes s) (activeHoleIndex s) = Some hole ->
  animBlock nowMs u s = Some s' ->
  vy (mole_position s') = animHeight nowMs a hole.
Proof.
  intros V A Hi. unfold animBlock. rewrite V, A, Hi.
  destruct (Qle_bool 1 _); [destruct (kind a)|];
    intro H; apply Some_eq in H; subst s'; reflexivity.
Qed.

Lemma animHeight_range (nowMs : Q) (a : Anim) (hole : Vector3) :
  anim_ok a -> t0 a <= nowMs ->
  vy hole - 0.02 <= animHeight nowMs a hole <= vy hole + 0.16
  /\ (dur a <= nowMs - t0 a -> animHeight nowMs a hole == vy hole + to a).
Proof.
  intros Ha Ht. pose proof (anim_ok_dur a Ha) as Hd.
  pose proof (progress_range nowMs (t0 a) (dur a) Hd Ht) as [P0 P1].
  unfold animHeight.
  set (t := Math_min 1 ((nowMs - t0 a) / dur a)) in *.
  destruct (easeOut_unit t) as [E0 E1].
  split.
  - specialize (E0 P0). specialize (E1 P1).
    unfold anim_ok in Ha.
    destruct (kind a); rewrite Ha; cbn [from to]; split; lra.
  - intros Hend.
    assert (Hone : t = 1).
    { unfold t. apply Math_min_end. apply Qle_bool_iff.
      apply (proj2 (one_le_div (nowMs - t0 a) (dur a) Hd)). exact Hend. }
    rewrite Hone. unfold easeOut. ring.
Qed.

(** X8. Whenever [animBlock] plays an animation at a time that is not
    before its start, it puts the mole between 0.02 below and 0.16 above
    the active hole; and once the 180 ms of the pop animation have elapsed
    it puts the mole exactly 0.16 above the hole. *)
Theorem X8_mole_height_in_range (nowMs u : Q) (s s' : State) (a : Anim) :
  reachable s -> mole_visible s = true -> mole_anim s = Some a ->
  t0 a <= nowMs -> animBlock nowMs u s = Some s' ->
  exists hole,
    index (holes s) (activeHoleIndex s) = Some hole
    /\ vy hole - 0.02 <= vy (mole_position s') <= vy hole + 0.16
    /\ (kind a = pop -> 180 <= nowMs - t0 a ->
        vy (mole_position s') == vy hole + 0.16).
Proof.
  intros R V A Ht E. pose proof (reachable_Inv s R) as I.
  destruct (index_Some (holes s) _ (inv_visible_index s I V)) as [hole Hi].
  exists hole. split; [exact Hi|].
  rewrite (animBlock_height nowMs u s s' a hole V A Hi E).
  pose proof (inv_anim s I a A) as Ha.
  destruct (animHeight_range nowMs a hole Ha Ht) as [Hr He].
  split; [exact Hr|].
  intros K Hend. unfold anim_ok in Ha. rewrite K in Ha.
  assert (Hd : dur a = 180) by (rewrite Ha; reflexivity).
  assert (Hto : to a = 0.16) by (rewrite Ha; reflexivity).
  rewrite Hd, Hto in He. apply He. exact Hend.
Qed.

Lemma X8_mole_height_in_range_witness :
  exists s' hole,
    animBlock 800 0 risingState = Some s'
    /\ index (holes risingState) (activeHoleIndex risingState) = Some hole
    /\ vy hole - 0.02 <= vy (mole_position s') <= vy hole + 0.16.
Proof.
  destruct (animBlock 800 0 risingState) as [s'|] eqn:E;
    [|vm_compute in E; discriminate].
  destruct (X8_mole_height_in_range 800 0 risingState s'
              (mkAnim pop 700 180 (-0.02) 0.16) risingState_reachable)
    as (hole & Hi & Hr & _).
  - vm_compute; reflexivity.
  - vm_compute; reflexivity.
  - vm_compute; discriminate.
  - exact E.
  - exists s', hole. split; [reflexivity|]. split; [exact Hi | exact Hr].
Defined.

(** X9. While an animation runs, a later frame never moves the mole
    backwards: the pop animation only raises it, the hide and bonk
    animations only lower it. *)
Theorem X9_mole_height_monotone (now1 now2 u1 u2 : Q) (s s1 s2 : State)
    (a : Anim) :
  reachable s -> mole_visible s = true -> mole_anim s = Some a ->
  now1 <= now2 ->
  animBlock now1 u1 s = Some s1 -> animBlock now2 u2 s = Some s2 ->
  (kind a = pop -> vy (mole_position s1) <= vy (mole_position s2))
  /\ (kind a <> pop -> vy (mole_position s2) <= vy (mole_position s1)).
Proof.
  intros R V A H12 E1 E2. pose proof (reachable_Inv s R) as I.
  destruct (index_Some (holes s) _ (inv_visible_index s I V)) as [hole Hi].
  rewrite (animBlock_height now1 u1 s s1 a hole V A Hi E1).
  rewrite (animBlock_height now2 u2 s s2 a hole V A Hi E2).
  pose proof (inv_anim s I a A) as Ha.
  pose proof (anim_ok_dur a Ha) as Hd.
  assert (Hp : Math_min 1 ((now1 - t0 a) / dur a)
               <= Math_min 1 ((now2 - t0 a) / dur a)).
  { apply Math_min_le, div_monotone; [exact Hd | lra]. }
  pose proof (easeOut_monotone _ _ Hp) as He.
  unfold animHeight.
  set (e1 := easeOut (Math_min 1 ((now1 - t0 a) / dur a))) in *.
  set (e2 := easeOut (Math_min 1 ((now2 - t0 a) / dur a))) in *.
  unfold anim_ok in Ha.
  destruct (kind a) eqn:K; rewrite Ha; cbn [from to];
    (split; [intros K'|intros K']; try congruence); lra.
Qed.

Lemma X9_mole_height_monotone_witness :
  exists s1 s2,
    animBlock 750 0 risingState = Some s1
    /\ animBlock 800 0 risingState = Some s2
    /\ vy (mole_position s1) <= vy (mole_position s2).
Proof.
  destruct (animBlock 750 0 risingState) as [s1|] eqn:E1;
    [|vm_compute in E1; discriminate].
  destruct (animBlock 800 0 risingState) as [s2|] eqn:E2;
    [|vm_compute in E2; discriminate].
  destruct (X9_mole_height_monotone 750 800 0 0 risingState s1 s2
              (mkAnim pop 700 180 (-0.02) 0.16) risingState_reachable)
    as [H _].
  - vm_compute; reflexivity.
  - vm_compute; reflexivity.
  - vm_compute; discriminate.
  - exact E1.
  - exact E2.
  - exists s1, s2. split; [reflexivity|]. split; [reflexivity|].
    apply H. reflexivity.
Defined.

(** ** Random draws and the pop *)

(** X11. After [scheduleNextPop(now)] the pop is not due at any time
    before [now + POP_INTERVAL_MIN], and, the mole being down on a grid
    with holes, it is due at every time from [now + POP_INTERVAL_MAX] on. *)
Theorem X11_schedule_window (u now t : Q) (s : State) :
  random_ok u = true ->
  (popDue t (scheduleNextPop u now s) = true -> now + POP_INTERVAL_MIN <= t)
  /\ (moleState s = down -> holes s <> [] -> now + POP_INTERVAL_MAX <= t ->
      popDue t (scheduleNextPop u now s) = true).
Proof.
  intros Hu. pose proof (rand_interval u Hu) as [R0 R1]. split.
  - intros D. apply popDue_spec in D. destruct D as (_ & D & _).
    cbn in D. lra.
  - intros M Hh Ht. apply popDue_spec. cbn.
    split; [exact M|]. split; [lra | exact Hh].
Qed.

Lemma X11_schedule_window_witness :
  popDue 2500 (scheduleNextPop (1 # 2) 1000 downState) = true.
Proof.
  destruct (X11_schedule_window (1 # 2) 1000 2500 downState eq_refl)
    as [_ H].
  apply H.
  - vm_compute. reflexivity.
  - vm_compute. discriminate.
  - vm_compute. discriminate.
Defined.

(** A frame in which the mole pops. *)
Lemma frame_pops (time : Q) pose (uPop uNext : Q) (s : State) :
  Inv s -> placed s = true -> paused s = false ->
  moleState s = down -> nextPopAt s <= time -> random_ok uPop = true ->
  exists s',
    step (Frame time pose uPop uNext) s = Some s'
    /\ popFires (Frame time pose uPop uNext) s = true
    /\ phase s' = Rising
    /\ mole_anim s' = Some (mkAnim pop time 180 (-0.02) 0.16)
    /\ upSince s' = time
    /\ valid_index s'
    /\ nextPopAt s' = nextPopAt s
    /\ score s' = score s /\ streak s' = streak s.
Proof.
  intros I Pl Pa M Hn Hu. cbn [step popFires]. unfold onXRFrame.
  pose proof (updateReticle_Inv pose s I) as Ir.
  destruct (updateReticle_shape pose s) as (b & p & q & E).
  set (r := updateReticle pose s) in *.
  assert (Plr : placed r = true) by (rewrite E; exact Pl).
  assert (Par : paused r = false) by (rewrite E; exact Pa).
  assert (D : popDue time r = true).
  { apply popDue_spec. rewrite E. cbn. split; [exact M|]. split; [exact Hn|].
    pose proof (inv_placed_holes s I Pl) as L.
    destruct (holes s); [discriminate L | discriminate]. }
  rewrite Plr, Par, D. cbn [negb andb].
  destruct (updateMole_Inv time uPop uNext r Ir Plr Hu) as (s' & E' & I').
  exists s'. split; [exact E'|]. split; [reflexivity|].
  destruct (updateMole_pop time uPop uNext r s' D E')
    as (M' & V' & A' & U' & hole & Hi).
  split; [unfold phase; rewrite M', A'; reflexivity|].
  split; [exact A'|]. split; [exact U'|].
  split; [apply (index_bounds _ _ hole Hi)|].
  assert (Hs := updateMole_score _ _ _ _ _ E').
  assert (Hk : streak s' = streak r).
  { pose proof (frame_streak (Frame time pose uPop uNext) r s' eq_refl) as F.
    unfold updateMole in E'.
    destruct (popBlock time uPop r) as [s1|] eqn:E1; [|discriminate].
    destruct (animBlock time uNext s1) as [s2|] eqn:E2; [|discriminate].
    apply Some_eq in E'. subst s'.
    apply popBlock_frame in E1. apply animBlock_frame in E2.
    unfold hideBlock in *. destruct (hideDue time s2) eqn:HD.
    - exfalso. cbn in A'. discriminate A'.
    - intuition congruence. }
  assert (Hnp : nextPopAt s' = nextPopAt r).
  { unfold updateMole in E'.
    destruct (popBlock time uPop r) as [s1|] eqn:E1; [|discriminate].
    destruct (popBlock_fires time uPop r s1 D E1)
      as (M1 & V1 & A1 & U1 & hole1 & Hi1).
    pose proof (popBlock_frame _ _ _ _ E1) as (_ & _ & _ & _ & _ & N1).
    unfold animBlock in E'. rewrite V1, A1, Hi1, Math_min_one_ge in E'.
    cbn [kind t0 dur from to] in E'.
    replace (Qle_bool 1 ((time - time) / 180)) with false in E'
      by (symmetry; apply Qle_bool_false, zero_div_lt_1; lra).
    apply Some_eq in E'. subst s'.
    pose proof (hideBlock_frame time
                  (set_mole_position
                     (set_y (vy hole1
                             + (-0.02 + (0.16 - -0.02)
                                * easeOut (Math_min 1 ((time - time) / 180))))
                        (mole_position s1)) s1)) as (_ & _ & _ & _ & N2).
    rewrite N2. cbn. exact N1. }
  rewrite Hnp, Hs, Hk, E. cbn. auto.
Qed.

(** ** Placement *)

Lemma unplaced_hidden_down (s : State) :
  Inv s -> placed s = false -> mole_visible s = false /\ moleState s = down.
Proof.
  intros I P.
  assert (V : mole_visible s = false).
  { destruct (mole_visible s) eqn:V; [|reflexivity].
    rewrite (inv_visible_placed s I V) in P. discriminate. }
  split; [exact V|].
  destruct (moleState s) eqn:M; [|reflexivity].
  rewrite (inv_up_visible s I M) in V. discriminate.
Qed.

(** X12. The tap that places the grid, at [now], builds the 9 holes and
    leaves the target Down and the counters as they were; after it no frame
    before [now + POP_INTERVAL_MIN] pops the mole, and, unless the session
    is paused, a frame at or after [now + POP_INTERVAL_MAX] pops it on one
    of the holes. *)
Theorem X12_first_pop_after_placement (s : State) (e : Pointer) (now u : Q)
    (time : Q) (pose : option (Vector3 * Quaternion)) (uPop uNext : Q) :
  reachable s -> placed s = false ->
  random_ok u = true -> random_ok uPop = true ->
  let s1 := onPointerDown e now u s in
  placed s1 = true /\ length (holes s1) = 9%nat /\ phase s1 = Down
  /\ score s1 = score s /\ streak s1 = streak s
  /\ (time < now + POP_INTERVAL_MIN ->
      popFires (Frame time pose uPop uNext) s1 = false)
  /\ (paused s = false -> now + POP_INTERVAL_MAX <= time ->
      exists s2,
        step (Frame time pose uPop uNext) s1 = Some s2
        /\ phase s2 = Rising /\ upSince s2 = time /\ valid_index s2).
Proof.
  intros R P Hu HuPop s1.
  pose proof (reachable_Inv s R) as I.
  destruct (unplaced_hidden_down s I P) as [V M].
  pose proof (onPointerDown_Inv e now u s I) as I1. fold s1 in I1.
  pose proof (rand_interval u Hu) as [R0 R1].
  assert (E : s1 = scheduleNextPop u now (set_placed true (buildGrid
                (if reticle_visible s
                 then set_gridRoot_quaternion (reticle_quaternion s)
                        (set_gridRoot_position (reticle_position s) s)
                 else set_gridRoot_position
                        (set_y (vy (addScaledVector (cam_origin e)
                                      (cam_forward e) 1.5) - 0.8)
                           (addScaledVector (cam_origin e)
                              (cam_forward e) 1.5)) s)))).
  { unfold s1, onPointerDown. rewrite P. reflexivity. }
  assert (Pl1 : placed s1 = true) by (rewrite E; reflexivity).
  assert (M1 : moleState s1 = down)
    by (rewrite E; destruct (reticle_visible s); exact M).
  assert (V1 : mole_visible s1 = false)
    by (rewrite E; destruct (reticle_visible s); exact V).
  assert (N1 : nextPopAt s1 = now + rand u POP_INTERVAL_MIN POP_INTERVAL_MAX)
    by (rewrite E; reflexivity).
  assert (Pa1 : paused s1 = paused s)
    by (rewrite E; destruct (reticle_visible s); reflexivity).
  split; [exact Pl1|].
  split; [apply (inv_placed_holes s1 I1 Pl1)|].
  split; [unfold phase; rewrite M1, V1; reflexivity|].
  split; [rewrite E; destruct (reticle_visible s); reflexivity|].
  split; [rewrite E; destruct (reticle_visible s); reflexivity|].
  split.
  - intros Ht. cbn [popFires].
    destruct (updateReticle_shape pose s1) as (b & p & q & Er). rewrite Er.
    replace (popDue time (set_reticle b p q s1)) with false;
      [apply andb_false_r|].
    symmetry. unfold popDue. cbn. rewrite N1.
    replace (Qle_bool _ time) with false;
      [rewrite andb_false_r; reflexivity|].
    symmetry. apply Qle_bool_false. lra.
  - intros Pa Ht.
    destruct (frame_pops time pose uPop uNext s1 I1 Pl1)
      as (s2 & E2 & _ & Ph & _ & U2 & Vi & _); try assumption.
    + congruence.
    + rewrite N1. lra.
    + exists s2. auto.
Qed.

Lemma X12_first_pop_after_placement_witness :
  exists s2,
    step (Frame 1400 None 0 0) (onPointerDown (tap false) 0 0 initial)
    = Some s2
    /\ phase s2 = Rising /\ upSince s2 = 1400 /\ valid_index s2.
Proof.
  destruct (X12_first_pop_after_placement initial (tap false) 0 0
              1400 None 0 0 reachable_initial eq_refl eq_refl eq_refl)
    as (_ & _ & _ & _ & _ & _ & H).
  apply H; [reflexivity | discriminate].
Defined.

(** X13. A placement that follows a reset, whatever happened before: when
    the reticle is visible the holes are those of a grid at the pose of the
    reticle, nothing of the former grid is left; when it is not, the grid
    is put 1.5 in front of the camera and 0.8 lower, and it keeps the
    orientation that [gridRoot] had before the reset. *)
Theorem X13_placement_after_reset (s : State) (e : Pointer) (now u : Q) :
  let s1 := onPointerDown e now u (resetGame s) in
  placed s1 = true
  /\ (reticle_visible s = true ->
      gridRoot_position s1 = reticle_position s
      /\ gridRoot_quaternion s1 = reticle_quaternion s
      /\ holes s1
         = gridPositions (reticle_position s) (reticle_quaternion s))
  /\ (reticle_visible s = false ->
      gridRoot_position s1
      = vec3 (vx (cam_origin e) + vx (cam_forward e) * 1.5)
             (vy (cam_origin e) + vy (cam_forward e) * 1.5 - 0.8)
             (vz (cam_origin e) + vz (cam_forward e) * 1.5)
      /\ gridRoot_quaternion s1 = gridRoot_quaternion s
      /\ holes s1 = gridPositions (gridRoot_position s1)
                                  (gridRoot_quaternion s)).
Proof.
  intros s1. unfold s1, onPointerDown. cbn [resetGame placed negb].
  change (placed (resetGame s)) with false. cbn [negb].
  change (reticle_visible (resetGame s)) with (reticle_visible s).
  split; [destruct (reticle_visible s); reflexivity|].
  split; intros V; rewrite V; repeat split; reflexivity.
Qed.

(** ** The life of a pop *)

Lemma waiting_run (evs : list Event) (s : State) :
  Inv s -> forallb is_frame evs = true -> forallb event_ok evs = true ->
  waiting s -> existsb (overdue (upSince s)) evs = false ->
  exists s',
    run evs s = Some s' /\ Inv s' /\ waiting s'
    /\ upSince s' = upSince s
    /\ score s' = score s /\ streak s' = streak s.
Proof.
  revert s. induction evs as [|ev evs IH]; cbn; intros s I Hf Hok W Hno.
  - exists s. auto 10.
  - apply andb_true_iff in Hf. destruct Hf as [Hf Hfs].
    apply andb_true_iff in Hok. destruct Hok as [Hev Hevs].
    apply orb_false_iff in Hno. destruct Hno as [Hno1 Hno2].
    destruct (step_Inv ev s I Hev) as (s1 & E & I1). rewrite E.
    destruct (waiting_frame ev s s1 I Hf W E) as (_ & Hm & _ & Hnext).
    rewrite Hno1, andb_false_r in Hm. rewrite Hm in Hnext.
    destruct Hnext as [W1 U1].
    pose proof (frame_streak ev s s1 Hf E) as Hs. rewrite Hm in Hs.
    assert (Hc : score s1 = score s).
    { destruct ev; try discriminate. apply (onXRFrame_score _ _ _ _ _ _ E). }
    rewrite <- U1 in Hno2.
    destruct (IH s1 I1 Hfs Hevs W1 Hno2) as (s' & Hr & I' & W' & U' & C' & K').
    exists s'. split; [exact Hr|]. split; [exact I'|]. split; [exact W'|].
    split; [congruence|]. split; congruence.
Qed.

(** X14. A mole that has popped and is not whacked stays hittable at least
    until [UP_DURATION] after the pop: whatever frames come up to
    [upSince + UP_DURATION], [moleState] is still ['up'] and the counters
    are untouched, and a tap that meets the mole then scores. *)
Theorem X14_hittable_until_timeout (s : State) (evs : list Event)
    (e : Pointer) (now u : Q) :
  reachable s -> phase s = Rising \/ phase s = Up ->
  forallb is_frame evs = true -> forallb event_ok evs = true ->
  existsb (overdue (upSince s)) evs = false -> hit e = true ->
  exists s',
    run evs s = Some s'
    /\ moleState s' = up
    /\ score s' = score s /\ streak s' = streak s
    /\ score (onPointerDown e now u s') = (score s + 1)%Z
    /\ streak (onPointerDown e now u s') = (streak s + 1)%Z.
Proof.
  intros R P Hf Hok Hno Hh. apply waiting_phase in P.
  pose proof (reachable_Inv s R) as I.
  destruct (waiting_run evs s I Hf Hok P Hno)
    as (s' & Hr & I' & [M' _] & _ & C' & K').
  exists s'. split; [exact Hr|]. split; [exact M'|].
  split; [exact C'|]. split; [exact K'|].
  pose proof (inv_visible_placed s' I' (inv_up_visible s' I' M')) as Pl.
  unfold onPointerDown, whackMole. rewrite Pl, Hh, M'. cbn.
  split; congruence.
Qed.

Lemma X14_hittable_until_timeout_witness :
  exists s',
    run [Frame 800 None 0 0; Frame 1000 None 0 0; Frame 1600 None 0 0]
        risingState = Some s'
    /\ moleState s' = up
    /\ score (onPointerDown (tap true) 1600 0 s')
       = (score risingState + 1)%Z.
Proof.
  destruct (X14_hittable_until_timeout risingState
              [Frame 800 None 0 0; Frame 1000 None 0 0; Frame 1600 None 0 0]
              (tap true) 1600 0 risingState_reachable)
    as (s' & H1 & H2 & _ & _ & H3 & _).
  - left. vm_compute. reflexivity.
  - reflexivity.
  - reflexivity.
  - vm_compute. reflexivity.
  - reflexivity.
  - exists s'. auto.
Defined.

(** X15. After a hit the bonk animation is cut short: [whackMole] leaves
    [nextPopAt] alone, so in any reachable state whose mole is ['up'] and
    not paused, a hit followed by a frame at a time not before [nextPopAt]
    makes the mole pop again in that frame, with the counters of the hit,
    and no new pop time is scheduled. *)
Theorem X15_pop_right_after_hit (s : State) (e : Pointer) (now u : Q)
    (time : Q) (pose : option (Vector3 * Quaternion)) (uPop uNext : Q) :
  reachable s -> moleState s = up -> paused s = false ->
  hit e = true -> nextPopAt s <= time -> random_ok uPop = true ->
  exists s2,
    run [PointerDown e now u; Frame time pose uPop uNext] s = Some s2
    /\ phase s2 = Rising
    /\ mole_anim s2 = Some (mkAnim pop time 180 (-0.02) 0.16)
    /\ upSince s2 = time
    /\ nextPopAt s2 = nextPopAt s
    /\ score s2 = (score s + 1)%Z /\ streak s2 = (streak s + 1)%Z.
Proof.
  intros R M Pa Hh Hn Hu. pose proof (reachable_Inv s R) as I.
  pose proof (inv_visible_placed s I (inv_up_visible s I M)) as Pl.
  assert (E : onPointerDown e now u s
              = set_streak (streak s + 1)
                  (set_score (score s + 1)
                  (set_mole_anim (Some (mkAnim bonk now 140 0.16 (-0.02)))
                  (set_moleState down s)))).
  { unfold onPointerDown, whackMole. rewrite Pl, Hh, M. reflexivity. }
  pose proof (onPointerDown_Inv e now u s I) as I1.
  destruct (frame_pops time pose uPop uNext (onPointerDown e now u s) I1)
    as (s2 & E2 & _ & Ph & A2 & U2 & _ & N2 & C2 & K2);
    try (rewrite E; cbn; assumption); try assumption.
  - rewrite E. reflexivity.
  - exists s2.
    assert (Er : run [PointerDown e now u; Frame time pose uPop uNext] s
                 = Some s2).
    { cbn [run]. change (step (PointerDown e now u) s)
        with (Some (onPointerDown e now u s)).
      cbv beta iota. rewrite E2. reflexivity. }
    split; [exact Er|]. split; [exact Ph|]. split; [exact A2|].
    split; [exact U2|]. rewrite N2, C2, K2, E. cbn. auto.
Qed.

Lemma X15_pop_right_after_hit_witness :
  exists s2,
    run [PointerDown (tap true) 950 0; Frame 966 None 0 0] upState = Some s2
    /\ phase s2 = Rising /\ upSince s2 = 966.
Proof.
  destruct (X15_pop_right_after_hit upState (tap true) 950 0 966 None 0 0
              upState_reachable)
    as (s2 & H1 & H2 & _ & H3 & _).
  - vm_compute. reflexivity.
  - vm_compute. reflexivity.
  - reflexivity.
  - vm_compute. discriminate.
  - reflexivity.
  - exists s2. auto.
Defined.

Lemma Qfloor_between (x : Q) (i : Z) :
  inject_Z i <= x -> x < inject_Z (i + 1) -> Qfloor x = i.
Proof.
  intros H0 H1.
  pose proof (Qfloor_le x) as F0. pose proof (Qlt_floor x) as F1.
  assert (A : (Qfloor x < i + 1)%Z).
  { rewrite Zlt_Qlt. apply Qle_lt_trans with x; assumption. }
  assert (B : (i < Qfloor x + 1)%Z).
  { rewrite Zlt_Qlt. apply Qle_lt_trans with x; assumption. }
  lia.
Qed.

Lemma popBlock_index (nowMs u : Q) (s s' : State) :
  popDue nowMs s = true -> popBlock nowMs u s = Some s' ->
  activeHoleIndex s'
  = Qfloor (u * inject_Z (Z.of_nat (length (holes s)))).
Proof.
  intros D. unfold popBlock. rewrite D. cbv zeta.
  set (i := Qfloor _).
  destruct (index (holes s) i); [|discriminate].
  intro H; apply Some_eq in H; subst s'. reflexivity.
Qed.

(** X16. When the pop is due in a reachable state, [popBlock] takes one of
    the 9 holes, shows the mole 0.02 below that hole with the orientation
    of the grid, and notes the time in [upSince]; a larger draw of
    [Math.random()] never gives a smaller index, and every one of the 9
    holes is the choice of some draw. *)
Theorem X16_pop_chooses_a_hole (nowMs u v : Q) (s : State) :
  reachable s -> popDue nowMs s = true ->
  random_ok u = true -> random_ok v = true ->
  (exists s' hole,
     popBlock nowMs u s = Some s'
     /\ (0 <= activeHoleIndex s' < 9)%Z
     /\ index (holes s) (activeHoleIndex s') = Some hole
     /\ mole_position s' = vec3 (vx hole) (vy hole + -0.02) (vz hole)
     /\ mole_quaternion s' = gridRoot_quaternion s
     /\ mole_visible s' = true /\ moleState s' = up /\ upSince s' = nowMs)
  /\ (u <= v ->
      forall s1 s2,
        popBlock nowMs u s = Some s1 -> popBlock nowMs v s = Some s2 ->
        (activeHoleIndex s1 <= activeHoleIndex s2)%Z)
  /\ (forall i, (0 <= i < 9)%Z ->
      exists w s',
        random_ok w = true /\ popBlock nowMs w s = Some s'
        /\ activeHoleIndex s' = i).
Proof.
  intros R D Hu Hv. pose proof (reachable_Inv s R) as I.
  assert (L : length (holes s) = 9%nat).
  { pose proof D as D'. apply popDue_spec in D'.
    destruct D' as (_ & _ & Hh).
    destruct (placed s) eqn:P; [apply (inv_placed_holes s I P)|].
    rewrite (shape_unplaced s (reachable_Shape s R) P) in Hh.
    congruence. }
  assert (Pick : forall w, random_ok w = true ->
            exists s' hole,
              popBlock nowMs w s = Some s'
              /\ activeHoleIndex s' = Qfloor (w * 9)
              /\ (0 <= activeHoleIndex s' < 9)%Z
              /\ index (holes s) (activeHoleIndex s') = Some hole
              /\ mole_position s' = vec3 (vx hole) (vy hole + -0.02) (vz hole)
              /\ mole_quaternion s' = gridRoot_quaternion s
              /\ mole_visible s' = true /\ moleState s' = up
              /\ upSince s' = nowMs).
  { intros w Hw.
    pose proof (floor_index_bounds w 9 Hw ltac:(lia)) as Hb.
    change (inject_Z (Z.of_nat 9)) with 9 in Hb.
    change (Z.of_nat 9) with 9%Z in Hb.
    unfold popBlock. rewrite D, L.
    change (inject_Z (Z.of_nat 9)) with 9.
    destruct (index_Some (holes s) (Qfloor (w * 9))) as [hole Hi].
    { rewrite L. exact Hb. }
    rewrite Hi. eexists. exists hole. split; [reflexivity|].
    cbn. repeat split; try assumption; apply Hb. }
  split; [|split].
  - destruct (Pick u Hu) as (s' & hole & E & _ & H).
    exists s', hole. split; [exact E | exact H].
  - intros Huv s1 s2 E1 E2.
    rewrite (popBlock_index nowMs u s s1 D E1).
    rewrite (popBlock_index nowMs v s s2 D E2).
    apply Qfloor_resp_le. apply Qmult_le_compat_r; [exact Huv|].
    rewrite L. discriminate.
  - intros i Hi.
    assert (Hw : random_ok ((inject_Z i + (1 # 2)) / 9) = true).
    { apply random_ok_spec.
      assert (H0 : 0 <= inject_Z i)
        by (change 0 with (inject_Z 0); rewrite <- Zle_Qle; lia).
      assert (H1 : inject_Z i <= 8)
        by (change 8 with (inject_Z 8); rewrite <- Zle_Qle; lia).
      split.
      - apply Qle_shift_div_l; [reflexivity | lra].
      - apply Qlt_shift_div_r; [reflexivity | lra]. }
    destruct (Pick _ Hw) as (s' & hole & E & Hidx & _).
    exists ((inject_Z i + (1 # 2)) / 9), s'.
    split; [exact Hw|]. split; [exact E|].
    rewrite Hidx. apply Qfloor_between.
    + setoid_replace ((inject_Z i + (1 # 2)) / 9 * 9)
        with (inject_Z i + (1 # 2)) by field. lra.
    + setoid_replace ((inject_Z i + (1 # 2)) / 9 * 9)
        with (inject_Z i + (1 # 2)) by field.
      rewrite inject_Z_plus. change (inject_Z 1) with 1. lra.
Qed.

Lemma X16_pop_chooses_a_hole_witness :
  exists s' hole,
    popBlock 2500 (1 # 2) downState = Some s'
    /\ (0 <= activeHoleIndex s' < 9)%Z
    /\ index (holes downState) (activeHoleIndex s') = Some hole.
Proof.
  destruct (X16_pop_chooses_a_hole 2500 (1 # 2) (3 # 4) downState
              downState_reachable) as [(s' & hole & H1 & H2 & H3 & _) _].
  - vm_compute. reflexivity.
  - reflexivity.
  - reflexivity.
  - exists s', hole. auto.
Defined.

(** ** The page *)

Lemma page_reachable_state (p : State * Page.Dom) :
  Page.page_reachable p -> reachable (fst p).
Proof.
  induction 1 as [|ev p p' _ IH Hev Hstep].
  - apply reachable_initial.
  - unfold Page.pageStep in Hstep.
    destruct (step (Page.event_of ev) (fst p)) as [s'|] eqn:E;
      [|discriminate].
    apply Some_eq in Hstep. subst p'. cbn [fst].
    apply (reachable_step (Page.event_of ev) (fst p)); assumption.
Qed.

Lemma updateMole_dom_keeps (nowMs uPop uNext : Q) (s : State)
    (d : Page.Dom) :
  Page.status_text (Page.updateMole_dom nowMs uPop uNext s d)
  = Page.status_text d
  /\ Page.btnPause_text (Page.updateMole_dom nowMs uPop uNext s d)
     = Page.btnPause_text d.
Proof.
  unfold Page.updateMole_dom.
  destruct (popBlock nowMs uPop s) as [s1|]; [|auto].
  destruct (animBlock nowMs uNext s1) as [s2|]; [|auto].
  destruct (hideDue nowMs s2); auto.
Qed.

Lemma updateReticle_dom_keeps (h : Page.HitTest) (s : State) (d : Page.Dom) :
  Page.score_text (Page.updateReticle_dom h s d) = Page.score_text d
  /\ Page.streak_text (Page.updateReticle_dom h s d) = Page.streak_text d
  /\ Page.btnPause_text (Page.updateReticle_dom h s d)
     = Page.btnPause_text d
  /\ (placed s = true ->
      Page.status_text (Page.updateReticle_dom h s d) = Page.status_text d)
  /\ (Page.status_text (Page.updateReticle_dom h s d) = Page.status_text d
      \/ Page.status_text (Page.updateReticle_dom h s d)
         = Some Page.TAP_TO_PLACE
      \/ Page.status_text (Page.updateReticle_dom h s d)
         = Some Page.MOVE_PHONE).
Proof.
  unfold Page.updateReticle_dom.
  destruct (hitTestSource s); [|auto 10].
  destruct h; destruct (placed s); cbn; auto 10; repeat split; auto;
    discriminate.
Qed.

(** The HUD after [updateMole]. *)
Lemma updateMole_hud (nowMs uPop uNext : Q) (s s' : State) (d : Page.Dom) :
  updateMole nowMs uPop uNext s = Some s' ->
  Page.hud_ok s d ->
  Page.hud_ok s' (Page.updateMole_dom nowMs uPop uNext s d).
Proof.
  unfold updateMole, Page.updateMole_dom.
  destruct (popBlock nowMs uPop s) as [s1|] eqn:E1; [|discriminate].
  destruct (animBlock nowMs uNext s1) as [s2|] eqn:E2; [|discriminate].
  intro H; apply Some_eq in H; subst s'. intros Hd.
  apply popBlock_frame in E1. apply animBlock_frame in E2.
  unfold hideBlock. destruct (hideDue nowMs s2).
  - left. split; reflexivity.
  - assert (Hc : score s2 = score s) by intuition congruence.
    assert (Hk : streak s2 = streak s) by intuition congruence.
    unfold Page.hud_ok in *. rewrite Hc, Hk. exact Hd.
Qed.

Lemma page_step_inv (ev : Page.PageEvent) (s s' : State) (d : Page.Dom) :
  step (Page.event_of ev) s = Some s' ->
  Page.hud_ok s d /\ Page.btnPause_ok s d /\ Page.status_ok s d ->
  Page.hud_ok s' (Page.dom_step ev s d)
  /\ Page.btnPause_ok s' (Page.dom_step ev s d)
  /\ Page.status_ok s' (Page.dom_step ev s d).
Proof.
  intros Hstep (Hh & Hp & Hs).
  destruct ev; cbn [Page.event_of step Page.dom_step] in *.
  - apply Some_eq in Hstep; subst s'. auto.
  - apply Some_eq in Hstep; subst s'.
    split; [exact Hh|]. split; [exact Hp|].
    split; [discriminate | auto].
  - (* frame *)
    unfold onXRFrame in Hstep. unfold Page.onXRFrame_dom.
    destruct (updateReticle_shape (Page.pose_of h) s) as (b & p & q & E).
    set (r := updateReticle (Page.pose_of h) s) in *.
    destruct (updateReticle_dom_keeps h s d) as (K1 & K2 & K3 & K4 & K5).
    set (d1 := Page.updateReticle_dom h s d) in *.
    assert (Hh1 : Page.hud_ok r d1).
    { unfold Page.hud_ok. rewrite K1, K2, E. exact Hh. }
    assert (Hp1 : Page.btnPause_ok r d1).
    { unfold Page.btnPause_ok. rewrite K3, E. exact Hp. }
    assert (Hs1 : Page.status_ok r d1).
    { unfold Page.status_ok. rewrite E. cbn [placed set_reticle].
      destruct Hs as [Hs1 Hs2]. split.
      - intros P. rewrite (K4 P). auto.
      - intros P. destruct K5 as [K5|[K5|K5]]; rewrite K5; auto. }
    destruct (negb (paused r) && placed r).
    + destruct (updateMole_keeps _ _ _ _ _ Hstep)
        as (_ & _ & _ & _ & Kpl & Kpa).
      destruct (updateMole_dom_keeps time uPop uNext r d1) as [D1 D2].
      split; [apply updateMole_hud; assumption|].
      split.
      * unfold Page.btnPause_ok. rewrite D2, Kpa. exact Hp1.
      * unfold Page.status_ok. rewrite D1, Kpl. exact Hs1.
    + apply Some_eq in Hstep; subst s'. auto.
  - (* tap *)
    apply Some_eq in Hstep; subst s'.
    unfold onPointerDown, Page.onPointerDown_dom.
    destruct (placed s) eqn:P; cbn [negb].
    + unfold Page.whackMole_dom, whackMole.
      destruct (hit e && is_up (moleState s)); [|auto].
      destruct (is_up (moleState s)); [|auto].
      split; [left; split; reflexivity|].
      split; [exact Hp|]. exact Hs.
    + split; [destruct (reticle_visible s); exact Hh|].
      split; [destruct (reticle_visible s); exact Hp|].
      destruct (reticle_visible s); (split; [reflexivity | discriminate]).
  - (* reset *)
    apply Some_eq in Hstep; subst s'. unfold Page.resetGame_dom.
    split; [left; split; reflexivity|].
    split; [left; reflexivity|].
    split; [discriminate | auto].
  - (* pause *)
    apply Some_eq in Hstep; subst s'. unfold Page.togglePause_dom.
    split; [exact Hh|]. split; [left; reflexivity | exact Hs].
Qed.

Lemma page_inv (p : State * Page.Dom) :
  Page.page_reachable p ->
  Page.hud_ok (fst p) (snd p) /\ Page.btnPause_ok (fst p) (snd p)
  /\ Page.status_ok (fst p) (snd p).
Proof.
  induction 1 as [|ev p p' _ IH Hev Hstep].
  - cbn. split; [right; auto|]. split; [right; auto|].
    split; [discriminate | auto].
  - unfold Page.pageStep in Hstep.
    destruct (step (Page.event_of ev) (fst p)) as [s'|] eqn:E;
      [|discriminate].
    apply Some_eq in Hstep. subst p'. cbn [fst snd].
    apply page_step_inv; assumption.
Qed.

Lemma page_reachable_run (evs : list Page.PageEvent) (p p' : State * Page.Dom) :
  Page.page_reachable p ->
  forallb (fun ev => event_ok (Page.event_of ev)) evs = true ->
  Page.pageRun evs p = Some p' -> Page.page_reachable p'.
Proof.
  revert p. induction evs as [|ev evs IH]; cbn; intros p R Hok Hr.
  - apply Some_eq in Hr. subst p'. exact R.
  - apply andb_true_iff in Hok. destruct Hok as [Hev Hevs].
    destruct (Page.pageStep ev p) as [p1|] eqn:E; [|discriminate].
    apply (IH p1); [|assumption..].
    apply (Page.page_step ev p); assumption.
Qed.

Lemma sessionPage_reachable :
  Page.page_reachable (fst Page.sessionPage, snd Page.sessionPage).
Proof.
  rewrite <- surjective_pairing.
  apply (page_reachable_run Page.session (initial, Page.loaded)).
  - apply Page.page_loaded.
  - reflexivity.
  - vm_compute. reflexivity.
Qed.

(** X17. The HUD is never stale: on every reachable page the two HUD
    elements show the decimal numerals of [score] and [streak], unless they
    were never written, and then both counters are still 0. *)
Theorem X17_hud_shows_counters (s : State) (d : Page.Dom) :
  Page.page_reachable (s, d) ->
  (Page.score_text d = Some (Page.String_ (score s))
   /\ Page.streak_text d = Some (Page.String_ (streak s)))
  \/ (Page.score_text d = None /\ Page.streak_text d = None
      /\ score s = 0%Z /\ streak s = 0%Z).
Proof. intros R. apply (page_inv (s, d) R). Qed.


(** X19. The status line invites to whack exactly while the grid is placed:
    on every reachable page [placed] is true if and only if the status is
    [whack the mole when it pops!]. *)
Theorem X19_status_whack_iff_placed (s : State) (d : Page.Dom) :
  Page.page_reachable (s, d) ->
  (placed s = true <-> Page.status_text d = Some Page.WHACK).
Proof.
  intros R. destruct (page_inv (s, d) R) as (_ & _ & [H1 H2]). cbn in *.
  split; [exact H1|].
  intros Hw. destruct (placed s); [reflexivity|].
  destruct (H2 eq_refl) as [H|[H|[H|H]]]; rewrite H in Hw; discriminate.
Qed.

Lemma X17_hud_shows_counters_witness :
  Page.page_reachable (fst Page.sessionPage, snd Page.sessionPage)
  /\ ((Page.score_text (snd Page.sessionPage)
       = Some (Page.String_ (score (fst Page.sessionPage)))
       /\ Page.streak_text (snd Page.sessionPage)
          = Some (Page.String_ (streak (fst Page.sessionPage))))
      \/ (Page.score_text (snd Page.sessionPage) = None
          /\ Page.streak_text (snd Page.sessionPage) = None
          /\ score (fst Page.sessionPage) = 0%Z
          /\ streak (fst Page.sessionPage) = 0%Z)).
Proof.
  split; [exact sessionPage_reachable|].
  apply (X17_hud_shows_counters (fst Page.sessionPage)
           (snd Page.sessionPage)).
  exact sessionPage_reachable.
Defined.


Lemma X19_status_whack_iff_placed_witness :
  placed (fst Page.sessionPage) = true
  <-> Page.status_text (snd Page.sessionPage) = Some Page.WHACK.
Proof.
  apply (X19_status_whack_iff_placed (fst Page.sessionPage)
           (snd Page.sessionPage)).
  exact sessionPage_reachable.
Defined.

(** ** The retreat after a timeout, and the exception *)

(** X20. The retreat that follows a timeout lasts 160 ms: in a reachable,
    unpaused state whose mole is ['up'] and plays the hide animation, a
    frame less than 160 ms after the start of the animation leaves the mole
    visible and ['up'] with that animation; a frame from 160 ms on hides
    the mole, puts it ['down'] and schedules the next pop not less than
    [POP_INTERVAL_MIN] and not more than [POP_INTERVAL_MAX] after the time
    of the frame. *)
Theorem X20_retreat_lasts_160 (s : State) (a : Anim) (time : Q)
    (pose : option (Vector3 * Quaternion)) (uPop uNext : Q) :
  reachable s -> paused s = false ->
  moleState s = up -> mole_anim s = Some a -> kind a = hide ->
  random_ok uNext = true ->
  exists s',
    step (Frame time pose uPop uNext) s = Some s'
    /\ (time - t0 a < 160 ->
        moleState s' = up /\ mole_visible s' = true
        /\ mole_anim s' = Some a /\ nextPopAt s' = nextPopAt s)
    /\ (160 <= time - t0 a ->
        moleState s' = down /\ mole_visible s' = false
        /\ mole_anim s' = None /\ phase s' = Down
        /\ time + POP_INTERVAL_MIN <= nextPopAt s'
        /\ nextPopAt s' <= time + POP_INTERVAL_MAX)
    /\ score s' = score s /\ streak s' = streak s.
Proof.
  intros R Pa M A K Hu. pose proof (reachable_Inv s R) as I.
  pose proof (inv_up_visible s I M) as V.
  pose proof (inv_visible_placed s I V) as Pl.
  destruct (index_Some (holes s) _ (inv_visible_index s I V)) as [hole Hi].
  pose proof (inv_anim s I a A) as Ha. unfold anim_ok in Ha.
  rewrite K in Ha.
  assert (Hd : dur a = 160) by (rewrite Ha; reflexivity).
  cbn [step]. unfold onXRFrame.
  destruct (updateReticle_shape pose s) as (b & p & q & E). rewrite E.
  cbn [paused placed set_reticle]. rewrite Pa, Pl. cbn [negb andb].
  unfold updateMole.
  rewrite popBlock_not_due by (apply popDue_up; exact M).
  unfold animBlock. cbn [mole_visible mole_anim holes activeHoleIndex
                         set_reticle].
  rewrite V, A, Hi, Math_min_one_ge, Hd.
  pose proof (rand_interval uNext Hu) as [R0 R1].
  destruct (Qle_bool 1 ((time - t0 a) / 160)) eqn:G.
  - assert (Hge : 160 <= time - t0 a).
    { apply (proj1 (one_le_div (time - t0 a) 160 ltac:(lra))).
      apply Qle_bool_iff. exact G. }
    rewrite K. rewrite hideBlock_down by reflexivity.
    eexists. split; [reflexivity|]. cbn.
    split; [intros Hlt; lra|].
    split; [|auto]. intros _. unfold phase. cbn.
    repeat split; try reflexivity; lra.
  - assert (Hlt : time - t0 a < 160).
    { apply Qle_bool_false in G. apply Qnot_le_lt. intro H.
      apply (proj2 (one_le_div (time - t0 a) 160 ltac:(lra))) in H. lra. }
    unfold hideBlock.
    rewrite (hideDue_anim time _ a) by (cbn; exact A).
    eexists. split; [reflexivity|]. cbn.
    split; [auto|]. split; [intros Hge; lra | auto].
Qed.

Lemma X20_retreat_lasts_160_witness :
  exists s',
    step (Frame 1761 None 0 0) hidingState = Some s'
    /\ score s' = score hidingState /\ streak s' = streak hidingState.
Proof.
  destruct (X20_retreat_lasts_160 hidingState
              (mkAnim hide 1601 160 0.16 (-0.02)) 1761 None 0 0
              hidingState_reachable)
    as (s' & H1 & _ & _ & H2 & H3).
  - vm_compute. reflexivity.
  - vm_compute. reflexivity.
  - vm_compute. reflexivity.
  - reflexivity.
  - reflexivity.
  - exists s'. auto.
Defined.


